(** * FluxBill backend: billing routes and assistant command planner

    A shallow embedding of [billing_route.py], [models.py] and the
    reply-handling part of [main.py], followed by the properties of the
    specification that were checked against it.

    Conventions.
    - A Python [str] is a [string] whose characters are read as the code
      points U+0000..U+00FF; on that range [str.lower] and [str.strip] are
      the character maps written out in module [Py].
    - A table is the list of its rows in table order; the primary key
      constraint is enforced when a unit of work is flushed.
    - A request handler is a computation in the monad [M]: it threads the
      request's [Session] and either returns a value or raises.
    - The remote model, the speech model and [json.loads] are parameters
      of the assistant; the text of the system prompt and the temporary
      file of the voice route are left out. *)

From Stdlib Require Import List String Ascii ZArith NArith Bool Lia.
From Stdlib Require Import Floats.PrimFloat Numbers.DecimalString.
Import ListNotations.
Open Scope string_scope.

(** ** Python string operations *)

Module Py.

(** [str.isspace] on one character (code points below 256). *)
Definition isspace (c : ascii) : bool :=
  let n := N_of_ascii c in
  (((9 <=? n) && (n <=? 13)) || ((28 <=? n) && (n <=? 32))
   || (n =? 133) || (n =? 160))%N.

(** [str.lower] on one character: A-Z, and the Latin-1 capitals
    U+00C0..U+00DE without the multiplication sign U+00D7. *)
Definition lower_char (c : ascii) : ascii :=
  let n := N_of_ascii c in
  if (((65 <=? n) && (n <=? 90)) || ((192 <=? n) && (n <=? 214))
      || ((216 <=? n) && (n <=? 222)))%N
  then ascii_of_N (n + 32) else c.

Fixpoint lower (s : string) : string :=
  match s with
  | EmptyString => EmptyString
  | String c s' => String (lower_char c) (lower s')
  end.

Fixpoint lstrip (s : string) : string :=
  match s with
  | EmptyString => EmptyString
  | String c s' => if isspace c then lstrip s' else s
  end.

Fixpoint rstrip (s : string) : string :=
  match s with
  | EmptyString => EmptyString
  | String c s' =>
      match rstrip s' with
      | EmptyString => if isspace c then EmptyString else String c EmptyString
      | r => String c r
      end
  end.

(** [s.strip()] *)
Definition strip (s : string) : string := rstrip (lstrip s).

(** [sub in s] for two strings. *)
Fixpoint contains (sub s : string) : bool :=
  String.prefix sub s
  || match s with
     | EmptyString => false
     | String _ s' => contains sub s'
     end.

(** Truth value of a string: [bool(s)]. *)
Definition truthy (s : string) : bool :=
  match s with EmptyString => false | String _ _ => true end.

(** [sep.join(parts)] *)
Fixpoint join (sep : string) (parts : list string) : string :=
  match parts with
  | [] => EmptyString
  | [p] => p
  | p :: rest => p ++ sep ++ join sep rest
  end.

(** [v or ''] for an optional string. *)
Definition or_empty (v : option string) : string :=
  match v with
  | Some s => if truthy s then s else EmptyString
  | None => EmptyString
  end.

Definition all_space (s : string) : bool :=
  forallb isspace (list_ascii_of_string s).

End Py.

(** The double quote character, for replies that quote example phrases. *)
Definition dq : string := String (ascii_of_nat 34) EmptyString.

(** ** models.py *)

Record date := mkdate { year : Z; month : Z; day : Z }.

(** [datetime] values are read off the request's clock. *)
Definition datetime := Z.
Bind Scope Z_scope with datetime.

Module Customer.
Record t := mk {
  id : string;
  name : string;
  tier : string;
  invoices : Z;
  status : string;
  created_at : datetime
}.
End Customer.

Module Invoice.
Record t := mk {
  id : string;
  customer : string;
  amount : Z;
  currency : string;
  status : string;
  due : date;
  created : date;
  method : string
}.

Definition set_status (v : string) (r : t) : t :=
  mk (id r) (customer r) (amount r) (currency r) v (due r) (created r) (method r).

Definition set_method (v : string) (r : t) : t :=
  mk (id r) (customer r) (amount r) (currency r) (status r) (due r) (created r) v.
End Invoice.

Module Subscription.
Record t := mk {
  id : string;
  plan : string;
  customer : string;
  mrr : Z;
  status : string
}.
End Subscription.

Module Payment.
Record t := mk {
  id : option Z;
  invoice_id : string;
  amount : Z;
  method : string;
  paid_at : datetime
}.

Definition set_id (v : option Z) (r : t) : t :=
  mk v (invoice_id r) (amount r) (method r) (paid_at r).
End Payment.

(** ** The store and the session (db.py, sqlmodel) *)

Record Store := mkStore {
  invoices : list Invoice.t;
  customers : list Customer.t;
  subscriptions : list Subscription.t;
  payments : list Payment.t
}.

Definition empty_store : Store := mkStore [] [] [] [].

(** An object registered with the session: new rows are INSERTed at
    flush, a row loaded by [session.get] and then modified is UPDATEd. *)
Inductive pending_obj :=
| NewInvoice (inv : Invoice.t)
| DirtyInvoice (inv : Invoice.t)
| NewCustomer (c : Customer.t)
| NewSubscription (s : Subscription.t)
| NewPayment (p : Payment.t).

Inductive exn :=
| HTTPException (status_code : Z) (detail : string)
| IntegrityError
| InvalidRequestError
| AttributeError
| KeyError.

Inductive outcome (A : Type) :=
| Return (a : A)
| Raise (e : exn).
Arguments Return {A} a.
Arguments Raise {A} e.

Record Session := mkSession {
  db : Store;
  pending : list pending_obj;
  committed : list (list pending_obj)
}.

(** Handlers thread a state and may raise. *)
Definition ST (S A : Type) : Type := S -> outcome A * S.

Definition ret {S A} (a : A) : ST S A := fun s => (Return a, s).

Definition raise {S A} (e : exn) : ST S A := fun s => (Raise e, s).

Definition bind {S A B} (m : ST S A) (k : A -> ST S B) : ST S B :=
  fun s =>
    match m s with
    | (Return a, s') => k a s'
    | (Raise e, s') => (Raise e, s')
    end.

(** A billing route runs against the request's session. *)
Definition M (A : Type) : Type := ST Session A.

Notation "x <- m ;; k" := (bind m (fun x => k))
  (at level 61, m at next level, right associativity).
Notation "m ;;; k" := (bind m (fun _ => k))
  (at level 61, right associativity).

Definition find_invoice (k : string) (rows : list Invoice.t) : option Invoice.t :=
  find (fun r => Invoice.id r =? k) rows.

Definition find_customer (k : string) (rows : list Customer.t) : option Customer.t :=
  find (fun r => Customer.id r =? k) rows.

Definition find_subscription (k : string) (rows : list Subscription.t)
  : option Subscription.t :=
  find (fun r => Subscription.id r =? k) rows.

(** The identifier the store gives the next payment row. *)
Definition next_payment_id (rows : list Payment.t) : Z :=
  Z.succ (fold_right
            (fun p acc => match Payment.id p with
                          | Some i => Z.max i acc
                          | None => acc
                          end) 0%Z rows).

Definition update_invoice (inv : Invoice.t) (rows : list Invoice.t) : list Invoice.t :=
  map (fun r => if Invoice.id r =? Invoice.id inv then inv else r) rows.

(** One statement of a flush; [None] is a primary key violation. *)
Definition flush_one (s : Store) (w : pending_obj) : option Store :=
  match w with
  | NewInvoice inv =>
      match find_invoice (Invoice.id inv) (invoices s) with
      | Some _ => None
      | None => Some (mkStore (invoices s ++ [inv]) (customers s)
                              (subscriptions s) (payments s))
      end
  | DirtyInvoice inv =>
      Some (mkStore (update_invoice inv (invoices s)) (customers s)
                    (subscriptions s) (payments s))
  | NewCustomer c =>
      match find_customer (Customer.id c) (customers s) with
      | Some _ => None
      | None => Some (mkStore (invoices s) (customers s ++ [c])
                              (subscriptions s) (payments s))
      end
  | NewSubscription sub =>
      match find_subscription (Subscription.id sub) (subscriptions s) with
      | Some _ => None
      | None => Some (mkStore (invoices s) (customers s)
                              (subscriptions s ++ [sub]) (payments s))
      end
  | NewPayment p =>
      Some (mkStore (invoices s) (customers s) (subscriptions s)
                    (payments s
                     ++ [Payment.set_id (Some (next_payment_id (payments s))) p]))
  end.

Fixpoint flush (s : Store) (ws : list pending_obj) : option Store :=
  match ws with
  | [] => Some s
  | w :: ws' =>
      match flush_one s w with
      | Some s' => flush s' ws'
      | None => None
      end
  end.

(** [session.get(Invoice, k)] *)
Definition session_get_invoice (k : string) : M (option Invoice.t) :=
  fun s => (Return (find_invoice k (invoices (db s))), s).

(** [session.get(Customer, k)] *)
Definition session_get_customer (k : string) : M (option Customer.t) :=
  fun s => (Return (find_customer k (customers (db s))), s).

(** [session.exec(select(Invoice))] and its siblings. *)
Definition select_invoices : M (list Invoice.t) :=
  fun s => (Return (invoices (db s)), s).

Definition select_customers : M (list Customer.t) :=
  fun s => (Return (customers (db s)), s).

Definition select_subscriptions : M (list Subscription.t) :=
  fun s => (Return (subscriptions (db s)), s).

(** [session.add(obj)] *)
Definition session_add (w : pending_obj) : M unit :=
  fun s => (Return tt, mkSession (db s) (pending s ++ [w]) (committed s)).

(** [session.add_all(objs)] *)
Definition session_add_all (ws : list pending_obj) : M unit :=
  fun s => (Return tt, mkSession (db s) (pending s ++ ws) (committed s)).

(** [session.commit()]: the pending objects are written in one
    transaction, or none of them is. *)
Definition session_commit : M unit :=
  fun s =>
    match flush (db s) (pending s) with
    | Some d => (Return tt, mkSession d [] (committed s ++ [pending s]))
    | None => (Raise IntegrityError, mkSession (db s) [] (committed s))
    end.

(** [session.refresh(obj)] *)
Definition session_refresh_invoice (inv : Invoice.t) : M Invoice.t :=
  fun s =>
    match find_invoice (Invoice.id inv) (invoices (db s)) with
    | Some r => (Return r, s)
    | None => (Raise InvalidRequestError, s)
    end.

Definition session_refresh_customer (c : Customer.t) : M Customer.t :=
  fun s =>
    match find_customer (Customer.id c) (customers (db s)) with
    | Some r => (Return r, s)
    | None => (Raise InvalidRequestError, s)
    end.

(** [get_session]: a fresh session per request over the current store. *)
Definition get_session (s : Store) : Session := mkSession s [] [].

(** Serve one request: the response and the store it leaves behind. *)
Definition run {A} (h : M A) (s : Store) : outcome A * Store :=
  let (r, sess) := h (get_session s) in (r, db sess).

(** The units of work the request committed, in order. *)
Definition transactions {A} (h : M A) (s : Store) : list (list pending_obj) :=
  committed (snd (h (get_session s))).

(** ** billing_route.py *)

Definition _match (q : string) (values : list (option string)) : bool :=
  let ql := Py.lower (Py.strip q) in
  existsb (fun v => Py.contains ql (Py.lower (Py.or_empty v))) values.

Definition invoice_fields (r : Invoice.t) : list (option string) :=
  [Some (Invoice.id r); Some (Invoice.customer r);
   Some (Invoice.status r); Some (Invoice.method r)].

Definition customer_fields (r : Customer.t) : list (option string) :=
  [Some (Customer.id r); Some (Customer.name r);
   Some (Customer.tier r); Some (Customer.status r)].

Definition subscription_fields (r : Subscription.t) : list (option string) :=
  [Some (Subscription.id r); Some (Subscription.plan r);
   Some (Subscription.customer r); Some (Subscription.status r)].

Definition list_invoices (q : option string) : M (list Invoice.t) :=
  rows <- select_invoices ;;
  match q with
  | None => ret rows
  | Some q =>
      if negb (Py.truthy q) then ret rows
      else ret (filter (fun r => _match q (invoice_fields r)) rows)
  end.

Definition create_invoice (inv : Invoice.t) : M Invoice.t :=
  exists_ <- session_get_invoice (Invoice.id inv) ;;
  match exists_ with
  | Some _ => raise (HTTPException 409 "Invoice id already exists")
  | None =>
      session_add (NewInvoice inv) ;;;
      session_commit ;;;
      session_refresh_invoice inv
  end.

Record pay_response := mk_pay_response { pay_ok : bool; pay_invoice_id : string }.

(** [now] is the clock reading that stamps the payment; the default
    method UPI of the route is filled in by the caller. *)
Definition pay_invoice (now : datetime) (invoice_id : string) (method : string)
  : M pay_response :=
  inv <- session_get_invoice invoice_id ;;
  match inv with
  | None => raise (HTTPException 404 "Invoice not found")
  | Some inv =>
      let inv := Invoice.set_status "paid" inv in
      let inv := Invoice.set_method method inv in
      let payment := Payment.mk None invoice_id (Invoice.amount inv) method now in
      session_add (NewPayment payment) ;;;
      session_add (DirtyInvoice inv) ;;;
      session_commit ;;;
      ret (mk_pay_response true invoice_id)
  end.

Definition list_customers (q : option string) : M (list Customer.t) :=
  rows <- select_customers ;;
  match q with
  | None => ret rows
  | Some q =>
      if negb (Py.truthy q) then ret rows
      else ret (filter (fun r => _match q (customer_fields r)) rows)
  end.

Definition create_customer (c : Customer.t) : M Customer.t :=
  exists_ <- session_get_customer (Customer.id c) ;;
  match exists_ with
  | Some _ => raise (HTTPException 409 "Customer id already exists")
  | None =>
      session_add (NewCustomer c) ;;;
      session_commit ;;;
      session_refresh_customer c
  end.

Definition list_subscriptions (q : option string) : M (list Subscription.t) :=
  rows <- select_subscriptions ;;
  match q with
  | None => ret rows
  | Some q =>
      if negb (Py.truthy q) then ret rows
      else ret (filter (fun r => _match q (subscription_fields r)) rows)
  end.

Record seed_response := mk_seed_response { seed_ok : bool; seeded : bool }.

Definition seed_invoices : list Invoice.t :=
  [ Invoice.mk "INV-10428" "Apex Retail Pvt Ltd" 48900 "INR" "paid"
      (mkdate 2025 12 2) (mkdate 2025 11 25) "UPI";
    Invoice.mk "INV-10429" "BlueSky Logistics" 125000 "INR" "overdue"
      (mkdate 2025 12 8) (mkdate 2025 11 28) "Card";
    Invoice.mk "INV-10430" "Nimbus Clinics" 76000 "INR" "sent"
      (mkdate 2025 12 20) (mkdate 2025 12 1) "NetBanking" ].

Definition seed_subscriptions : list Subscription.t :=
  [ Subscription.mk "SUB-2201" "Growth" "Nimbus Clinics" 6999 "active";
    Subscription.mk "SUB-2202" "Starter" "Orchid Education" 1999 "active" ].

Definition seed_customers (now : datetime) : list Customer.t :=
  [ Customer.mk "CUST-901" "Apex Retail Pvt Ltd" "Mid-market" 12 "healthy" now;
    Customer.mk "CUST-902" "BlueSky Logistics" "Enterprise" 21 "at_risk" now ].

Definition seed_if_empty (now : datetime) : M seed_response :=
  rows <- select_invoices ;;
  match hd_error rows with
  | Some _ => ret (mk_seed_response true false)
  | None =>
      session_add_all (map NewInvoice seed_invoices) ;;;
      session_add_all (map NewSubscription seed_subscriptions) ;;;
      session_add_all (map NewCustomer (seed_customers now)) ;;;
      session_commit ;;;
      ret (mk_seed_response true true)
  end.

(** ** Histories of requests against the billing routes *)

Inductive request :=
| GetInvoices (q : option string)
| PostInvoice (inv : Invoice.t)
| PostPay (invoice_id method : string)
| GetCustomers (q : option string)
| PostCustomer (c : Customer.t)
| GetSubscriptions (q : option string)
| PostSeed.

(** The store after serving request [r] at clock reading [now]. *)
Definition serve (now : datetime) (r : request) (s : Store) : Store :=
  match r with
  | GetInvoices q => snd (run (list_invoices q) s)
  | PostInvoice inv => snd (run (create_invoice inv) s)
  | PostPay i m => snd (run (pay_invoice now i m) s)
  | GetCustomers q => snd (run (list_customers q) s)
  | PostCustomer c => snd (run (create_customer c) s)
  | GetSubscriptions q => snd (run (list_subscriptions q) s)
  | PostSeed => snd (run (seed_if_empty now) s)
  end.

(** [reachable h s]: serving the requests of [h], oldest first, on the
    freshly created schema leaves the store [s]. *)
Inductive reachable : list (datetime * request) -> Store -> Prop :=
| reach_init : reachable [] empty_store
| reach_step h s now r :
    reachable h s -> reachable (h ++ [(now, r)]) (serve now r s).

(** ** main.py: command schema *)

Definition ACTIONS : list string :=
  [ "click"; "type"; "none";
    "create_invoice"; "delete_invoice"; "update_invoice"; "filter_invoices";
    "create_customer"; "delete_customer"; "update_customer";
    "create_subscription"; "delete_subscription"; "update_subscription" ].

Definition TARGETS : list string :=
  [ "nav.dashboard"; "nav.invoices"; "nav.subscriptions"; "nav.customers";
    "nav.reports"; "nav.settings";
    "field.search"; "action.createInvoice"; "action.collectPayment" ].

(** [x in xs] for a list of strings. *)
Definition str_in (x : string) (xs : list string) : bool :=
  existsb (String.eqb x) xs.

#[local] Set Warnings "-register-all".

(** Values produced by [json.loads]. *)
Inductive json :=
| JNull
| JBool (b : bool)
| JInt (z : Z)
| JFloat (f : float)
| JStr (s : string)
| JList (l : list json)
| JDict (d : list (string * json)).

Definition dict := list (string * json).

(** [d.get(k)] *)
Fixpoint dict_get (k : string) (d : dict) : option json :=
  match d with
  | [] => None
  | (k', v) :: d' => if k' =? k then Some v else dict_get k d'
  end.

(** [d[k] = v] *)
Fixpoint dict_set (k : string) (v : json) (d : dict) : dict :=
  match d with
  | [] => [(k, v)]
  | (k', v') :: d' =>
      if k' =? k then (k', v) :: d' else (k', v') :: dict_set k v d'
  end.

(** Truth value of a JSON value: [bool(v)]. *)
Definition truthy (v : json) : bool :=
  match v with
  | JNull => false
  | JBool b => b
  | JInt z => negb (z =? 0)%Z
  | JFloat f => negb (PrimFloat.eqb f PrimFloat.zero)
  | JStr s => Py.truthy s
  | JList l => match l with [] => false | _ => true end
  | JDict d => match d with [] => false | _ => true end
  end.

Module Command.
Record t := mk {
  action : string;
  target : option string;
  args : dict;
  reply : string
}.

Definition set_args (v : dict) (c : t) : t :=
  mk (action c) (target c) v (reply c).

(** A [str] field with a default. *)
Definition str_field (k default : string) (obj : dict) : option string :=
  match dict_get k obj with
  | None => Some default
  | Some (JStr s) => Some s
  | Some _ => None
  end.

(** [Command] built from the keys of [obj]: the model's field validation; [None] is a
    [ValidationError].  Keys that are not fields are ignored. *)
Definition validate (obj : dict) : option t :=
  match str_field "action" "none" obj with
  | None => None
  | Some a =>
      match (match dict_get "target" obj with
             | None | Some JNull => Some None
             | Some (JStr s) => Some (Some s)
             | Some _ => None
             end) with
      | None => None
      | Some tg =>
          match (match dict_get "args" obj with
                 | None => Some []
                 | Some (JDict d) => Some d
                 | Some _ => None
                 end) with
          | None => None
          | Some ar =>
              match str_field "reply" "ok" obj with
              | None => None
              | Some rp => Some (mk a tg ar rp)
              end
          end
      end
  end.

(** [Command(action="none", reply=r)] *)
Definition none (r : string) : t := mk "none" None [] r.
End Command.

(** ** main.py: extraction of a JSON object from the reply *)

Definition open_brace : ascii := ascii_of_nat 123.
Definition close_brace : ascii := ascii_of_nat 125.

(** The suffix of [s] that starts at its first opening brace. *)
Fixpoint from_first_open (s : string) : option string :=
  match s with
  | EmptyString => None
  | String c s' =>
      if Ascii.eqb c open_brace then Some s else from_first_open s'
  end.

(** The prefix of [s] that ends at its last closing brace. *)
Fixpoint upto_last_close (s : string) : option string :=
  match s with
  | EmptyString => None
  | String c s' =>
      match upto_last_close s' with
      | Some r => Some (String c r)
      | None =>
          if Ascii.eqb c close_brace then Some (String c EmptyString) else None
      end
  end.

(** [re.search(r"\{[\s\S]*\}", text)]: the leftmost, longest span from an
    opening brace to a closing brace. *)
Definition brace_span (text : string) : option string :=
  match from_first_open text with
  | Some (String c rest) =>
      match upto_last_close rest with
      | Some r => Some (String c r)
      | None => None
      end
  | _ => None
  end.

(** What the assistant calls outside the process, in order. *)
Inductive call :=
| CallWhisper (audio : string)
| CallOpenRouter (user_message : string).

Definition IO (A : Type) : Type := ST (list call) A.

Record http_response := mk_http_response {
  status_code : Z;
  text : string;
  (** [r.json()["choices"][0]["message"]["content"]] when the body has it. *)
  content : option string
}.

Record assistant_response := mk_assistant_response {
  transcript : string;
  command : Command.t
}.

Definition newline : string := String (ascii_of_nat 10) EmptyString.

Definition str_of_Z (z : Z) : string :=
  DecimalString.NilZero.string_of_int (Z.to_int z).

Section Assistant.

(** Configuration read at start-up and the three collaborators. *)
Variable OPENROUTER_API_KEY : string.
(** [json.loads]; [None] when it raises. *)
Variable json_loads : string -> option json.
(** The remote model: the response to a user message. *)
Variable openrouter : string -> http_response.
(** The speech model: the texts of the segments of an upload. *)
Variable whisper : string -> list string.

Definition _extract_json (text : string) : option dict :=
  match json_loads text with
  | Some (JDict d) => Some d
  | _ =>
      match brace_span text with
      | None => None
      | Some span =>
          match json_loads span with
          | Some (JDict d) => Some d
          | _ => None
          end
      end
  end.

(** [(cmd.args.get('text') or '').strip()] *)
Definition args_text (args : dict) : outcome string :=
  let v := match dict_get "text" args with
           | Some v => if truthy v then v else JStr EmptyString
           | None => JStr EmptyString
           end in
  match v with
  | JStr s => Return (Py.strip s)
  | _ => Raise AttributeError
  end.

(** Lines 174-192 of [plan_command]: from the extracted object on. *)
Definition plan_obj (obj : dict) : outcome Command.t :=
  match Command.validate obj with
  | None => Return (Command.none "I got an invalid command format. Try again.")
  | Some cmd =>
      if negb (str_in (Command.action cmd) ACTIONS) then
        Return (Command.none "That action is not supported.")
      else if match Command.target cmd with
              | Some tg => negb (str_in tg TARGETS)
              | None => false
              end then
        Return (Command.none "That UI target is not supported.")
      else if Command.action cmd =? "type" then
        match args_text (Command.args cmd) with
        | Raise e => Raise e
        | Return text =>
            if negb (match Command.target cmd with
                     | Some tg => tg =? "field.search"
                     | None => false
                     end)
               || negb (Py.truthy text)
            then Return (Command.none "Tell me what to search for.")
            else Return (Command.set_args
                           (dict_set "text" (JStr text) (Command.args cmd)) cmd)
        end
      else Return cmd
  end.

(** Lines 170-192 of [plan_command]: from the reply's content on. *)
Definition plan_reply (content : string) : outcome Command.t :=
  match _extract_json content with
  | None | Some [] =>
      Return (Command.none
                ("I could not understand. Try: " ++ dq ++ "open invoices" ++ dq
                 ++ ", " ++ dq ++ "search apex" ++ dq ++ "."))
  | Some obj => plan_obj obj
  end.

Definition post_openrouter (user_message : string) : IO http_response :=
  fun log => (Return (openrouter user_message),
              (log ++ [CallOpenRouter user_message])%list).

Definition plan_command (user_text active_tab : string) : IO Command.t :=
  if negb (Py.truthy OPENROUTER_API_KEY) then
    raise (HTTPException 500 "OPENROUTER_API_KEY is not set")
  else
    r <- post_openrouter
           ("Active tab: " ++ active_tab ++ newline ++ "User: " ++ user_text) ;;
    if (status_code r >=? 400)%Z then
      raise (HTTPException 500
               ("OpenRouter error: " ++ str_of_Z (status_code r) ++ " " ++ text r))
    else
      match content r with
      | None => raise KeyError
      | Some content => fun log => (plan_reply content, log)
      end.

Definition call_whisper (audio : string) : IO (list string) :=
  fun log => (Return (whisper audio), (log ++ [CallWhisper audio])%list).

Definition transcribe_audio (audio : string) : IO string :=
  segments <- call_whisper audio ;;
  let parts := map Py.strip (filter Py.truthy segments) in
  ret (Py.strip (Py.join " " (filter Py.truthy parts))).

Definition assistant_text (text active_tab : string) : IO assistant_response :=
  cmd <- plan_command text active_tab ;;
  ret (mk_assistant_response text cmd).

Definition assistant_voice (audio active_tab : string) : IO assistant_response :=
  transcript <- transcribe_audio audio ;;
  if negb (Py.truthy transcript) then
    ret (mk_assistant_response EmptyString
           (Command.none "I could not hear anything. Try again."))
  else
    cmd <- plan_command transcript active_tab ;;
    ret (mk_assistant_response transcript cmd).

End Assistant.

(** ** The specification's reading of a valid command *)

(** The args carry a string under [text] that is not empty once trimmed. *)
Definition spec_text_ok (args : dict) : bool :=
  match dict_get "text" args with
  | Some (JStr s) => Py.truthy (Py.strip s)
  | _ => false
  end.

(** Section 4.4: action in the action set, target null or in the target
    set, and for action [type] the target [field.search] with a text. *)
Definition spec_acceptable (cmd : Command.t) : bool :=
  str_in (Command.action cmd) ACTIONS
  && match Command.target cmd with
     | None => true
     | Some tg => str_in tg TARGETS
     end
  && (if Command.action cmd =? "type"
      then match Command.target cmd with
           | Some tg => tg =? "field.search"
           | None => false
           end && spec_text_ok (Command.args cmd)
      else true).

(** The fallback: action [none] with a reply that says something. *)
Definition is_fallback (c : Command.t) : Prop :=
  Command.action c = "none" /\ Command.reply c <> EmptyString.

(** ** Sample data used in the examples below *)

Definition apex_invoice : Invoice.t :=
  Invoice.mk "INV-10428" "Apex Retail Pvt Ltd" 48900 "INR" "paid"
    (mkdate 2025 12 2) (mkdate 2025 11 25) "UPI".

Definition walk_in_customer : Customer.t :=
  Customer.mk "CUST-1" "Walk-in" "SMB" 0 "new" 0.

Definition apex_customer : Customer.t :=
  Customer.mk "CUST-901" "Apex Retail Pvt Ltd" "Mid-market" 12 "healthy" 0.

(** A model reply object asking to type the number 5 into the search. *)
Definition type_number_obj : dict :=
  [ ("action", JStr "type"); ("target", JStr "field.search");
    ("args", JDict [("text", JInt 5)]) ].

(** A parser that knows one object and rejects everything else. *)
Definition sample_json_loads (s : string) : option json :=
  if s =? "{}" then Some (JDict []) else None.

Definition sample_openrouter (reply : string) (_ : string) : http_response :=
  mk_http_response 200 "ok" (Some reply).

(** Provenance of a stored invoice with respect to a history. *)

(** [inv] was put into the store as it is, by a create request or as
    part of the demo dataset. *)
Definition inserted (h : list (datetime * request)) (inv : Invoice.t) : Prop :=
  (exists now, In (now, PostInvoice inv) h)
  \/ (In inv seed_invoices /\ exists now, In (now, PostSeed) h).

(** [inv] reads paid with the method of a pay request of the history,
    and the store holds a payment row for it with that method and the
    invoice's amount. *)
Definition paid_by_pay (h : list (datetime * request)) (s : Store)
    (inv : Invoice.t) : Prop :=
  exists now m,
    In (now, PostPay (Invoice.id inv) m) h
    /\ Invoice.status inv = "paid" /\ Invoice.method inv = m
    /\ exists p, In p (payments s)
                 /\ Payment.invoice_id p = Invoice.id inv
                 /\ Payment.method p = m
                 /\ Payment.amount p = Invoice.amount inv.

Definition provenance (h : list (datetime * request)) (s : Store) : Prop :=
  forall inv, In inv (invoices s) -> inserted h inv \/ paid_by_pay h s inv.

(** What the three list routes return: the rows when the query is absent
    or empty, else the rows one of whose fields matches. *)
Definition filtered {R} (fields : R -> list (option string))
    (q : option string) (rows : list R) : list R :=
  match q with
  | Some q' =>
      if Py.truthy q' then filter (fun r => _match q' (fields r)) rows else rows
  | None => rows
  end.

Definition bluesky_paid : Invoice.t :=
  Invoice.mk "INV-10429" "BlueSky Logistics" 125000 "INR" "paid"
    (mkdate 2025 12 8) (mkdate 2025 11 28) "Card".

Definition seed_then_pay : list (datetime * request) :=
  [ (0%Z, PostSeed); (1%Z, PostPay "INV-10429" "Card") ].

(** Primary keys: no two rows of a table carry the same identifier. *)
Definition keys_unique (s : Store) : Prop :=
  NoDup (map Invoice.id (invoices s))
  /\ NoDup (map Customer.id (customers s))
  /\ NoDup (map Subscription.id (subscriptions s)).

(** A route preserves a property of the store. *)
Definition preserves {A} (P : Store -> Prop) (m : M A) : Prop :=
  forall sess, P (db sess) -> P (db (snd (m sess))).

(** ** Further definitions used by the properties *)

(** Serving a sequence of requests, oldest first. *)
Definition replay (rs : list (datetime * request)) (s : Store) : Store :=
  fold_left (fun st x => serve (fst x) (snd x) st) rs s.

(** The fields of an invoice that no route writes after creation. *)
Definition same_core (a b : Invoice.t) : Prop :=
  Invoice.id a = Invoice.id b
  /\ Invoice.customer a = Invoice.customer b
  /\ Invoice.amount a = Invoice.amount b
  /\ Invoice.currency a = Invoice.currency b
  /\ Invoice.due a = Invoice.due b
  /\ Invoice.created a = Invoice.created b.

(** [s] holds everything [s0] holds, in the same order: the identifiers
    of the invoices and the rows of the other three tables. *)
Definition extends (s0 s : Store) : Prop :=
  (exists e, map Invoice.id (invoices s) = (map Invoice.id (invoices s0) ++ e)%list)
  /\ (exists e, customers s = (customers s0 ++ e)%list)
  /\ (exists e, subscriptions s = (subscriptions s0 ++ e)%list)
  /\ (exists e, payments s = (payments s0 ++ e)%list).

(** Every payment row has an identifier, positive and its own. *)
Definition payment_ids_ok (s : Store) : Prop :=
  NoDup (map Payment.id (payments s))
  /\ forall p, In p (payments s) ->
               exists i, Payment.id p = Some i
                         /\ (0 < i < next_payment_id (payments s))%Z.

(** Every payment row points at a stored invoice that reads paid and
    has the payment's amount. *)
Definition payments_backed (s : Store) : Prop :=
  forall p, In p (payments s) ->
            exists inv, find_invoice (Payment.invoice_id p) (invoices s) = Some inv
                        /\ Invoice.status inv = "paid"
                        /\ Invoice.amount inv = Payment.amount p.

(** [c in s] for a character and a string. *)
Fixpoint has_char (c : ascii) (s : string) : bool :=
  match s with
  | EmptyString => false
  | String c' s' => Ascii.eqb c' c || has_char c s'
  end.

(** [s.split(sep)] for a separator of one character. *)
Fixpoint split_on (sep : ascii) (s : string) : list string :=
  match s with
  | EmptyString => [EmptyString]
  | String c s' =>
      if Ascii.eqb c sep then EmptyString :: split_on sep s'
      else match split_on sep s' with
           | p :: ps => String c p :: ps
           | [] => [String c EmptyString]
           end
  end.

Definition comma : ascii := ascii_of_nat 44.

(** main.py, [CORS_ORIGINS]: the allowed origins read from the
    environment variable of that name, [None] when it is not set. *)
Definition CORS_ORIGINS (env : option string) : list string :=
  let raw := match env with
             | Some v => v
             | None => "http://127.0.0.1:5173,http://localhost:5173"
             end in
  map Py.strip (filter (fun x => Py.truthy (Py.strip x)) (split_on comma raw)).

(** Some stored subscription or customer carries an identifier of the
    demo dataset. *)
Definition seed_clash (s : Store) : bool :=
  existsb (fun sub =>
             match find_subscription (Subscription.id sub) (subscriptions s) with
             | Some _ => true
             | None => false
             end) seed_subscriptions
  || existsb (fun c =>
                match find_customer (Customer.id c) (customers s) with
                | Some _ => true
                | None => false
                end) (seed_customers 0).

(** * Properties *)

(** ** Lookup and update on tables *)

Lemma find_invoice_id k rows r :
  find_invoice k rows = Some r -> Invoice.id r = k /\ In r rows.
Proof.
  unfold find_invoice. intros H.
  apply find_some in H. destruct H as [Hin Heq].
  apply String.eqb_eq in Heq. auto.
Qed.

Lemma find_invoice_absent k rows :
  (forall r, In r rows -> Invoice.id r <> k) -> find_invoice k rows = None.
Proof.
  intros H. unfold find_invoice.
  destruct (find (fun r => Invoice.id r =? k) rows) as [r|] eqn:E; [|reflexivity].
  apply find_some in E. destruct E as [Hin Heq].
  apply String.eqb_eq in Heq. exfalso. exact (H r Hin Heq).
Qed.

Lemma find_invoice_present k rows old :
  In old rows -> Invoice.id old = k -> exists r, find_invoice k rows = Some r.
Proof.
  intros Hin Hk. unfold find_invoice.
  destruct (find (fun r => Invoice.id r =? k) rows) as [r|] eqn:E.
  - eauto.
  - exfalso. apply (find_none _ _ E) in Hin.
    rewrite Hk, String.eqb_refl in Hin. discriminate.
Qed.

Lemma find_customer_present k rows old :
  In old rows -> Customer.id old = k -> exists r, find_customer k rows = Some r.
Proof.
  intros Hin Hk. unfold find_customer.
  destruct (find (fun r => Customer.id r =? k) rows) as [r|] eqn:E.
  - eauto.
  - exfalso. apply (find_none _ _ E) in Hin.
    rewrite Hk, String.eqb_refl in Hin. discriminate.
Qed.

Lemma find_update_same inv rows old :
  find_invoice (Invoice.id inv) rows = Some old ->
  find_invoice (Invoice.id inv) (update_invoice inv rows) = Some inv.
Proof.
  unfold find_invoice, update_invoice.
  induction rows as [|r rows IH]; simpl; [discriminate|].
  destruct (Invoice.id r =? Invoice.id inv) eqn:E.
  - intros _. rewrite String.eqb_refl. reflexivity.
  - rewrite E. exact IH.
Qed.

Lemma find_update_other inv rows k :
  k <> Invoice.id inv ->
  find_invoice k (update_invoice inv rows) = find_invoice k rows.
Proof.
  intros Hk. unfold find_invoice, update_invoice.
  induction rows as [|r rows IH]; simpl; [reflexivity|].
  destruct (Invoice.id r =? Invoice.id inv) eqn:E.
  - apply String.eqb_eq in E.
    assert (Hn : (Invoice.id inv =? k) = false)
      by (apply String.eqb_neq; congruence).
    assert (Hr : (Invoice.id r =? k) = false)
      by (apply String.eqb_neq; congruence).
    rewrite Hn, Hr. exact IH.
  - destruct (Invoice.id r =? k); [reflexivity | exact IH].
Qed.

(** ** Pay invoice *)

(** C1. Paying an invoice found under identifier [I] with method [M]
    returns the acknowledgment for [I]; the stored invoice then reads
    status paid and method [M] with its other fields as before, rows under
    other identifiers are as before, exactly one payment row is appended,
    carrying the invoice's amount and [M], and the request commits one
    unit of work that holds both writes. *)
Theorem pay_invoice_existing (s : Store) (I M : string) (now : datetime)
    (inv : Invoice.t) (Hfound : find_invoice I (invoices s) = Some inv) :
  let inv' := Invoice.set_method M (Invoice.set_status "paid" inv) in
  let p := Payment.mk None I (Invoice.amount inv) M now in
  let s' := snd (run (pay_invoice now I M) s) in
  fst (run (pay_invoice now I M) s) = Return (mk_pay_response true I)
  /\ find_invoice I (invoices s') = Some inv'
  /\ Invoice.status inv' = "paid" /\ Invoice.method inv' = M
  /\ Invoice.amount inv' = Invoice.amount inv
  /\ (forall k, k <> I -> find_invoice k (invoices s') = find_invoice k (invoices s))
  /\ payments s'
     = (payments s ++ [Payment.set_id (Some (next_payment_id (payments s))) p])%list
  /\ customers s' = customers s /\ subscriptions s' = subscriptions s
  /\ transactions (pay_invoice now I M) s = [[NewPayment p; DirtyInvoice inv']].
Proof.
  intros inv' p s'.
  destruct (find_invoice_id _ _ _ Hfound) as [Hid _].
  assert (Hid' : Invoice.id inv' = I) by exact Hid.
  subst s'.
  unfold run, transactions, pay_invoice, bind, session_get_invoice,
    session_add, session_commit, ret, get_session; simpl.
  rewrite Hfound; simpl.
  fold inv'. fold p.
  repeat split; try reflexivity.
  - rewrite <- Hid'. apply find_update_same with (old := inv).
    rewrite Hid'. exact Hfound.
  - intros k Hk. apply find_update_other. rewrite Hid'. exact Hk.
Qed.

Lemma pay_invoice_existing_witness :
  find_invoice "INV-10428" (invoices (mkStore [apex_invoice] [] [] []))
  = Some apex_invoice
  /\ payments (snd (run (pay_invoice 5 "INV-10428" "Card")
                      (mkStore [apex_invoice] [] [] [])))
     = [Payment.mk (Some 1%Z) "INV-10428" 48900 "Card" 5].
Proof.
  split; [reflexivity|].
  exact (proj1 (proj2 (proj2 (proj2 (proj2 (proj2 (proj2
    (pay_invoice_existing (mkStore [apex_invoice] [] [] [])
       "INV-10428" "Card" 5%Z apex_invoice eq_refl)))))))).
Defined.

(** C3. Paying under an identifier that no stored invoice carries raises
    the 404 error and leaves the store as it was: nothing is committed and
    no payment row appears. *)
Theorem pay_invoice_missing (s : Store) (I M : string) (now : datetime)
    (Habsent : forall r, In r (invoices s) -> Invoice.id r <> I) :
  run (pay_invoice now I M) s
  = (Raise (HTTPException 404 "Invoice not found"), s)
  /\ transactions (pay_invoice now I M) s = []
  /\ payments (snd (run (pay_invoice now I M) s)) = payments s.
Proof.
  apply find_invoice_absent in Habsent.
  unfold run, transactions, pay_invoice, bind, session_get_invoice, raise,
    get_session; simpl.
  rewrite Habsent; simpl. auto.
Qed.

Lemma pay_invoice_missing_witness :
  (forall r, In r (invoices (mkStore [apex_invoice] [] [] [])) ->
             Invoice.id r <> "INV-1")
  /\ run (pay_invoice 5 "INV-1" "UPI") (mkStore [apex_invoice] [] [] [])
     = (Raise (HTTPException 404 "Invoice not found"),
        mkStore [apex_invoice] [] [] []).
Proof.
  assert (H : forall r, In r (invoices (mkStore [apex_invoice] [] [] [])) ->
                        Invoice.id r <> "INV-1").
  { simpl. intros r [Hr|[]]. subst r. simpl. discriminate. }
  split; [exact H|].
  exact (proj1 (pay_invoice_missing (mkStore [apex_invoice] [] [] [])
                  "INV-1" "UPI" 5%Z H)).
Defined.

(** ** Create *)

(** C4. Creating an invoice, or a customer, under an identifier that a
    stored record of that type already carries raises the 409 error, and
    the store, the original record with it, is left as it was. *)
Theorem create_existing_conflict (s : Store) :
  (forall inv old,
      In old (invoices s) -> Invoice.id old = Invoice.id inv ->
      run (create_invoice inv) s
      = (Raise (HTTPException 409 "Invoice id already exists"), s)
      /\ transactions (create_invoice inv) s = [])
  /\ (forall c old,
      In old (customers s) -> Customer.id old = Customer.id c ->
      run (create_customer c) s
      = (Raise (HTTPException 409 "Customer id already exists"), s)
      /\ transactions (create_customer c) s = []).
Proof.
  split.
  - intros inv old Hin Hid.
    destruct (find_invoice_present _ _ _ Hin Hid) as [r Hr].
    unfold run, transactions, create_invoice, bind, session_get_invoice,
      raise, get_session; simpl.
    rewrite Hr; simpl. auto.
  - intros c old Hin Hid.
    destruct (find_customer_present _ _ _ Hin Hid) as [r Hr].
    unfold run, transactions, create_customer, bind, session_get_customer,
      raise, get_session; simpl.
    rewrite Hr; simpl. auto.
Qed.

Lemma create_existing_conflict_witness :
  let s := mkStore [apex_invoice] [apex_customer] [] [] in
  (In apex_invoice (invoices s)
   /\ run (create_invoice (Invoice.set_status "draft" apex_invoice)) s
      = (Raise (HTTPException 409 "Invoice id already exists"), s))
  /\ (In apex_customer (customers s)
      /\ run (create_customer apex_customer) s
         = (Raise (HTTPException 409 "Customer id already exists"), s)).
Proof.
  intros s.
  pose proof (create_existing_conflict s) as [Hi Hc].
  split; split.
  - simpl. auto.
  - exact (proj1 (Hi (Invoice.set_status "draft" apex_invoice) apex_invoice
                     (or_introl eq_refl) eq_refl)).
  - simpl. auto.
  - exact (proj1 (Hc apex_customer apex_customer (or_introl eq_refl) eq_refl)).
Defined.

(** ** Seed *)

(** C5. The seed route looks at the invoice table only.  On the store
    that holds one customer and nothing else it inserts the whole demo
    dataset and reports seeded; on the store that holds the customer
    CUST-901 and nothing else its commit hits the primary key of the
    customer table and the request raises. *)
Theorem seed_if_empty_ignores_other_tables :
  let s1 := snd (run (create_customer walk_in_customer) empty_store) in
  let s2 := snd (run (create_customer apex_customer) empty_store) in
  s1 = mkStore [] [walk_in_customer] [] []
  /\ run (seed_if_empty 1) s1
     = (Return (mk_seed_response true true),
        mkStore seed_invoices (walk_in_customer :: seed_customers 1)
                seed_subscriptions [])
  /\ s2 = mkStore [] [apex_customer] [] []
  /\ run (seed_if_empty 1) s2 = (Raise IntegrityError, s2).
Proof.
  repeat split; vm_compute; reflexivity.
Qed.

Lemma seed_on_empty_store now :
  run (seed_if_empty now) empty_store
  = (Return (mk_seed_response true true),
     mkStore seed_invoices (seed_customers now) seed_subscriptions []).
Proof. reflexivity. Qed.

Lemma seed_with_invoices now s :
  invoices s <> [] ->
  run (seed_if_empty now) s = (Return (mk_seed_response true false), s)
  /\ transactions (seed_if_empty now) s = [].
Proof.
  intros H.
  unfold run, transactions, seed_if_empty, bind, select_invoices, ret,
    get_session; simpl.
  destruct (invoices s) as [|r rows]; [congruence|]. simpl. auto.
Qed.

(** ** What one request does to the store *)

Ltac unfold_route :=
  unfold run, transactions, list_invoices, list_customers, list_subscriptions,
    create_invoice, create_customer, pay_invoice, seed_if_empty, bind, ret,
    raise, select_invoices, select_customers, select_subscriptions,
    session_get_invoice, session_get_customer, session_add, session_add_all,
    session_commit, session_refresh_invoice, session_refresh_customer,
    get_session; simpl.

Lemma list_invoices_run q s :
  run (list_invoices q) s = (Return (filtered invoice_fields q (invoices s)), s).
Proof.
  unfold filtered. destruct q as [q|]; [destruct (Py.truthy q) eqn:E|];
    unfold_route; rewrite ?E; reflexivity.
Qed.

Lemma list_customers_run q s :
  run (list_customers q) s = (Return (filtered customer_fields q (customers s)), s).
Proof.
  unfold filtered. destruct q as [q|]; [destruct (Py.truthy q) eqn:E|];
    unfold_route; rewrite ?E; reflexivity.
Qed.

Lemma list_subscriptions_run q s :
  run (list_subscriptions q) s = (Return (filtered subscription_fields q (subscriptions s)), s).
Proof.
  unfold filtered. destruct q as [q|]; [destruct (Py.truthy q) eqn:E|];
    unfold_route; rewrite ?E; reflexivity.
Qed.

Lemma create_invoice_store inv s :
  snd (run (create_invoice inv) s) = s
  \/ snd (run (create_invoice inv) s)
     = mkStore (invoices s ++ [inv]) (customers s) (subscriptions s) (payments s).
Proof.
  unfold_route.
  destruct (find_invoice (Invoice.id inv) (invoices s)) eqn:E; simpl.
  - left. reflexivity.
  - rewrite E. simpl.
    destruct (find_invoice (Invoice.id inv) (invoices s ++ [inv]));
      right; reflexivity.
Qed.

Lemma create_customer_store c s :
  snd (run (create_customer c) s) = s
  \/ snd (run (create_customer c) s)
     = mkStore (invoices s) (customers s ++ [c]) (subscriptions s) (payments s).
Proof.
  unfold_route.
  destruct (find_customer (Customer.id c) (customers s)) eqn:E; simpl.
  - left. reflexivity.
  - rewrite E. simpl.
    destruct (find_customer (Customer.id c) (customers s ++ [c]));
      right; reflexivity.
Qed.

Lemma pay_invoice_store now I M s :
  snd (run (pay_invoice now I M) s) = s
  \/ exists inv,
       find_invoice I (invoices s) = Some inv
       /\ snd (run (pay_invoice now I M) s)
          = mkStore
              (update_invoice (Invoice.set_method M (Invoice.set_status "paid" inv))
                 (invoices s))
              (customers s) (subscriptions s)
              (payments s
               ++ [Payment.mk (Some (next_payment_id (payments s))) I
                     (Invoice.amount inv) M now]).
Proof.
  unfold_route.
  destruct (find_invoice I (invoices s)) as [inv|] eqn:E; simpl.
  - right. exists inv. split; reflexivity.
  - left. reflexivity.
Qed.

Lemma seed_cases now s :
  (invoices s <> []
   /\ run (seed_if_empty now) s = (Return (mk_seed_response true false), s))
  \/ (invoices s = []
      /\ run (seed_if_empty now) s = (Raise IntegrityError, s))
  \/ (invoices s = []
      /\ fst (run (seed_if_empty now) s) = Return (mk_seed_response true true)
      /\ invoices (snd (run (seed_if_empty now) s)) = seed_invoices
      /\ payments (snd (run (seed_if_empty now) s)) = payments s).
Proof.
  destruct s as [iv cu su pa].
  unfold_route.
  destruct iv as [|r rows]; simpl;
    [|left; split; [discriminate | reflexivity]].
  right.
  repeat match goal with
         | |- context [find_subscription ?k ?l] =>
             destruct (find_subscription k l); simpl
         | |- context [find_customer ?k ?l] =>
             destruct (find_customer k l); simpl
         end;
    solve [left; split; reflexivity | right; repeat split; reflexivity].
Qed.

Lemma seed_store now s :
  snd (run (seed_if_empty now) s) = s
  \/ (invoices s = []
      /\ invoices (snd (run (seed_if_empty now) s)) = seed_invoices
      /\ payments (snd (run (seed_if_empty now) s)) = payments s).
Proof.
  destruct (seed_cases now s) as [[_ E]|[[_ E]|(He & _ & Hi & Hp)]].
  - left. rewrite E. reflexivity.
  - left. rewrite E. reflexivity.
  - right. auto.
Qed.

(** Whenever a seed request returns, the next one reports that it did
    not seed and leaves the store as it found it. *)
Lemma seed_twice now1 now2 s r :
  fst (run (seed_if_empty now1) s) = Return r ->
  run (seed_if_empty now2) (snd (run (seed_if_empty now1) s))
  = (Return (mk_seed_response true false), snd (run (seed_if_empty now1) s)).
Proof.
  intros Hret.
  destruct (seed_cases now1 s) as [[Hne E]|[[_ E]|(He & _ & Hi & _)]].
  - rewrite E. simpl. apply seed_with_invoices. exact Hne.
  - rewrite E in Hret. discriminate Hret.
  - apply seed_with_invoices. rewrite Hi. discriminate.
Qed.

(** ** Properties of the store that every route preserves *)

Section Preservation.

Variable P : Store -> Prop.
Hypothesis flush_stable : forall s ws d, P s -> flush s ws = Some d -> P d.

Lemma preserves_ret {A} (a : A) : preserves P (ret a).
Proof. intros sess H. exact H. Qed.

Lemma preserves_raise {A} (e : exn) : preserves P (@raise Session A e).
Proof. intros sess H. exact H. Qed.

Lemma preserves_bind {A B} (m : M A) (k : A -> M B) :
  preserves P m -> (forall a, preserves P (k a)) -> preserves P (bind m k).
Proof.
  intros Hm Hk sess H. unfold bind.
  specialize (Hm sess H).
  destruct (m sess) as [[a|e] sess']; simpl in *.
  - apply Hk. exact Hm.
  - exact Hm.
Qed.

Lemma preserves_commit : preserves P session_commit.
Proof.
  intros sess H. unfold session_commit.
  destruct (flush (db sess) (pending sess)) as [d|] eqn:E; simpl.
  - exact (flush_stable _ _ _ H E).
  - exact H.
Qed.

Lemma preserves_refresh_invoice inv : preserves P (session_refresh_invoice inv).
Proof.
  intros sess H. unfold session_refresh_invoice.
  destruct (find_invoice _ _); exact H.
Qed.

Lemma preserves_refresh_customer c : preserves P (session_refresh_customer c).
Proof.
  intros sess H. unfold session_refresh_customer.
  destruct (find_customer _ _); exact H.
Qed.

Ltac preserve :=
  repeat first
    [ apply preserves_bind
    | apply preserves_ret
    | apply preserves_raise
    | apply preserves_commit
    | apply preserves_refresh_invoice
    | apply preserves_refresh_customer
    | match goal with
      | |- forall _, preserves _ _ => intro
      | |- preserves _ (match ?x with _ => _ end) => destruct x
      end
    | solve [intros sess H; exact H] ].

Lemma preserves_list_invoices q : preserves P (list_invoices q).
Proof. unfold list_invoices. preserve. Qed.

Lemma preserves_list_customers q : preserves P (list_customers q).
Proof. unfold list_customers. preserve. Qed.

Lemma preserves_list_subscriptions q : preserves P (list_subscriptions q).
Proof. unfold list_subscriptions. preserve. Qed.

Lemma preserves_create_invoice inv : preserves P (create_invoice inv).
Proof. unfold create_invoice. preserve. Qed.

Lemma preserves_create_customer c : preserves P (create_customer c).
Proof. unfold create_customer. preserve. Qed.

Lemma preserves_pay_invoice now I M : preserves P (pay_invoice now I M).
Proof. unfold pay_invoice. preserve. Qed.

Lemma preserves_seed_if_empty now : preserves P (seed_if_empty now).
Proof. unfold seed_if_empty. preserve. Qed.

Lemma run_preserves {A} (m : M A) s : preserves P m -> P s -> P (snd (run m s)).
Proof.
  intros Hm Hs. unfold run.
  specialize (Hm (get_session s) Hs).
  destruct (m (get_session s)) as [r sess]. exact Hm.
Qed.

Lemma serve_preserves now r s : P s -> P (serve now r s).
Proof.
  intros Hs. destruct r; simpl; apply run_preserves; try exact Hs.
  - apply preserves_list_invoices.
  - apply preserves_create_invoice.
  - apply preserves_pay_invoice.
  - apply preserves_list_customers.
  - apply preserves_create_customer.
  - apply preserves_list_subscriptions.
  - apply preserves_seed_if_empty.
Qed.

Lemma reachable_preserves h s : P empty_store -> reachable h s -> P s.
Proof.
  intros H0. induction 1 as [|h s now r Hr IH].
  - exact H0.
  - apply serve_preserves. exact IH.
Qed.

End Preservation.

(** ** Primary keys stay unique *)

Lemma NoDup_snoc {A} (l : list A) (x : A) :
  NoDup l -> ~ In x l -> NoDup (l ++ [x]).
Proof.
  induction l as [|y l IH]; simpl; intros Hnd Hx.
  - constructor; [intros [] | constructor].
  - inversion Hnd as [|? ? Hy Hl]; subst. constructor.
    + intros Hin. apply in_app_or in Hin. destruct Hin as [Hin|[Hin|[]]].
      * exact (Hy Hin).
      * apply Hx. left. symmetry. exact Hin.
    + apply IH; [exact Hl|]. intros Hin. apply Hx. right. exact Hin.
Qed.

Lemma find_none_fresh {R} (pk : R -> string) (k : string) (rows : list R) :
  find (fun r => pk r =? k) rows = None -> ~ In k (map pk rows).
Proof.
  intros Hf Hin. apply in_map_iff in Hin. destruct Hin as (r & Hk & Hr).
  pose proof (find_none _ _ Hf r Hr) as E. simpl in E.
  rewrite Hk, String.eqb_refl in E. discriminate E.
Qed.

Lemma update_invoice_ids inv rows :
  map Invoice.id (update_invoice inv rows) = map Invoice.id rows.
Proof.
  unfold update_invoice. induction rows as [|r rows IH]; simpl; [reflexivity|].
  rewrite IH. destruct (Invoice.id r =? Invoice.id inv) eqn:E; [|reflexivity].
  apply String.eqb_eq in E. rewrite E. reflexivity.
Qed.

Lemma flush_one_keys s w d :
  keys_unique s -> flush_one s w = Some d -> keys_unique d.
Proof.
  intros (Hi & Hc & Hs) Hf. destruct w as [inv|inv|c|sub|p]; simpl in Hf.
  - destruct (find_invoice (Invoice.id inv) (invoices s)) eqn:E;
      [discriminate|]. inversion Hf; subst d; clear Hf.
    repeat split; simpl; try assumption.
    rewrite map_app. apply NoDup_snoc; [exact Hi|].
    apply find_none_fresh. exact E.
  - inversion Hf; subst d; clear Hf.
    repeat split; simpl; try assumption.
    rewrite update_invoice_ids. exact Hi.
  - destruct (find_customer (Customer.id c) (customers s)) eqn:E;
      [discriminate|]. inversion Hf; subst d; clear Hf.
    repeat split; simpl; try assumption.
    rewrite map_app. apply NoDup_snoc; [exact Hc|].
    apply find_none_fresh. exact E.
  - destruct (find_subscription (Subscription.id sub) (subscriptions s)) eqn:E;
      [discriminate|]. inversion Hf; subst d; clear Hf.
    repeat split; simpl; try assumption.
    rewrite map_app. apply NoDup_snoc; [exact Hs|].
    apply find_none_fresh. exact E.
  - inversion Hf; subst d; clear Hf.
    repeat split; simpl; assumption.
Qed.

Lemma flush_keys s ws d : keys_unique s -> flush s ws = Some d -> keys_unique d.
Proof.
  revert s. induction ws as [|w ws IH]; simpl; intros s Hk Hf.
  - inversion Hf; subst. exact Hk.
  - destruct (flush_one s w) as [s'|] eqn:E; [|discriminate].
    apply (IH s'); [|exact Hf]. exact (flush_one_keys s w s' Hk E).
Qed.

(** No history of requests leaves two rows under one identifier. *)
Lemma reachable_keys_unique h s : reachable h s -> keys_unique s.
Proof.
  apply reachable_preserves.
  - exact flush_keys.
  - repeat split; constructor.
Qed.

(** ** Provenance of paid invoices *)

Lemma inserted_mono h x inv : inserted h inv -> inserted (h ++ [x]) inv.
Proof.
  intros [[now H]|[Hs [now H]]]; [left|right; split; [exact Hs|]];
    exists now; apply in_or_app; left; exact H.
Qed.

Lemma paid_by_pay_mono h x s s' inv :
  (forall p, In p (payments s) -> In p (payments s')) ->
  paid_by_pay h s inv -> paid_by_pay (h ++ [x]) s' inv.
Proof.
  intros Hsub (now & m & Hin & Hst & Hm & p & Hp & Hrest).
  exists now, m. repeat split; try assumption.
  - apply in_or_app. left. exact Hin.
  - exists p. split; [apply Hsub; exact Hp | exact Hrest].
Qed.

Lemma provenance_frame h x s s' :
  invoices s' = invoices s -> payments s' = payments s ->
  provenance h s -> provenance (h ++ [x]) s'.
Proof.
  intros Hi Hp H inv Hin. rewrite Hi in Hin.
  destruct (H inv Hin) as [Ha|Hb].
  - left. apply inserted_mono. exact Ha.
  - right. apply paid_by_pay_mono with (s := s); [|exact Hb].
    intros p. rewrite Hp. auto.
Qed.

Lemma provenance_step h s now r :
  provenance h s -> provenance (h ++ [(now, r)]) (serve now r s).
Proof.
  intros H. destruct r as [q|inv0|I M|q|c|q|]; simpl.
  - rewrite list_invoices_run. apply provenance_frame with (s := s); auto.
  - destruct (create_invoice_store inv0 s) as [E|E]; rewrite E.
    + apply provenance_frame with (s := s); auto.
    + intros inv Hin. simpl in Hin. apply in_app_or in Hin.
      destruct Hin as [Hin|[Hin|[]]].
      * destruct (H inv Hin) as [Ha|Hb].
        -- left. apply inserted_mono. exact Ha.
        -- right. apply paid_by_pay_mono with (s := s); auto.
      * subst inv. left. left. exists now. apply in_or_app. right. simpl. auto.
  - destruct (pay_invoice_store now I M s) as [E|(inv1 & Hf & E)]; rewrite E.
    + apply provenance_frame with (s := s); auto.
    + destruct (find_invoice_id _ _ _ Hf) as [Hid _].
      intros inv Hin. simpl in Hin. unfold update_invoice in Hin.
      apply in_map_iff in Hin. destruct Hin as (r0 & Hr0 & Hin0).
      destruct (Invoice.id r0 =? _) eqn:Eid.
      * subst inv. right. exists now, M. simpl.
        repeat split.
        -- apply in_or_app. right. simpl. rewrite Hid. auto.
        -- eexists. split; [apply in_or_app; right; simpl; left; reflexivity|].
           simpl. rewrite Hid. auto.
      * subst inv. destruct (H r0 Hin0) as [Ha|Hb].
        -- left. apply inserted_mono. exact Ha.
        -- right. apply paid_by_pay_mono with (s := s); [|exact Hb].
           intros p Hp. simpl. apply in_or_app. left. exact Hp.
  - rewrite list_customers_run. apply provenance_frame with (s := s); auto.
  - destruct (create_customer_store c s) as [E|E]; rewrite E;
      apply provenance_frame with (s := s); auto.
  - rewrite list_subscriptions_run. apply provenance_frame with (s := s); auto.
  - destruct (seed_store now s) as [E|(He & Hi & Hp)].
    + rewrite E. apply provenance_frame with (s := s); auto.
    + intros inv Hin. rewrite Hi in Hin. left. right. split; [exact Hin|].
      exists now. apply in_or_app. right. simpl. auto.
Qed.

Lemma reachable_provenance h s : reachable h s -> provenance h s.
Proof.
  induction 1 as [|h s now r Hr IH].
  - intros inv [].
  - apply provenance_step. exact IH.
Qed.

(** C6. In every store reached from the empty schema through the routes,
    an invoice that reads paid either was put into the store reading paid,
    by a create request or as part of the demo dataset, or had the status
    set by a pay request of the history, which also stamped its method and
    left a payment row with that method and the invoice's amount. *)
Theorem paid_invoice_provenance (h : list (datetime * request)) (s : Store)
    (inv : Invoice.t) :
  reachable h s -> In inv (invoices s) -> Invoice.status inv = "paid" ->
  inserted h inv \/ paid_by_pay h s inv.
Proof.
  intros Hr Hin _. exact (reachable_provenance h s Hr inv Hin).
Qed.

Lemma paid_invoice_provenance_witness :
  let s := serve 1 (PostPay "INV-10429" "Card") (serve 0 PostSeed empty_store) in
  reachable seed_then_pay s
  /\ In bluesky_paid (invoices s)
  /\ Invoice.status bluesky_paid = "paid"
  /\ (inserted seed_then_pay bluesky_paid
      \/ paid_by_pay seed_then_pay s bluesky_paid).
Proof.
  intros s.
  assert (Hr : reachable seed_then_pay s).
  { exact (reach_step _ _ 1%Z (PostPay "INV-10429" "Card")
             (reach_step _ _ 0%Z PostSeed reach_init)). }
  assert (Hin : In bluesky_paid (invoices s)).
  { right. left. reflexivity. }
  split; [exact Hr|]. split; [exact Hin|]. split; [reflexivity|].
  exact (paid_invoice_provenance seed_then_pay s bluesky_paid Hr Hin eq_refl).
Defined.

(** After the seed request alone the store holds a paid invoice, no pay
    request was ever served and there is no payment row. *)
Lemma paid_without_pay_request :
  let h := [(0%Z, PostSeed)] in
  let s := serve 0 PostSeed empty_store in
  reachable h s
  /\ In apex_invoice (invoices s)
  /\ Invoice.status apex_invoice = "paid"
  /\ (forall now m, ~ In (now, PostPay (Invoice.id apex_invoice) m) h)
  /\ payments s = [].
Proof.
  intros h s. repeat split.
  - exact (reach_step _ _ 0%Z PostSeed reach_init).
  - left. reflexivity.
  - intros now m [H|[]]. discriminate H.
Qed.

(** ** Query filter *)

Lemma contains_empty s : Py.contains EmptyString s = true.
Proof. destruct s; reflexivity. Qed.

Lemma lstrip_all_space q : Py.all_space q = true -> Py.lstrip q = EmptyString.
Proof.
  unfold Py.all_space.
  induction q as [|c q IH]; simpl; [reflexivity|].
  intros H. apply andb_prop in H. destruct H as [Hc Hq].
  rewrite Hc. exact (IH Hq).
Qed.

Lemma strip_all_space q : Py.all_space q = true -> Py.strip q = EmptyString.
Proof.
  intros H. unfold Py.strip. rewrite (lstrip_all_space q H). reflexivity.
Qed.

Lemma match_blank {R} (fields : R -> list (option string)) q r :
  Py.lower (Py.strip q) = EmptyString -> fields r <> [] ->
  _match q (fields r) = true.
Proof.
  intros Hq Hf. unfold _match. rewrite Hq.
  destruct (fields r) as [|v vs]; [congruence|].
  simpl. rewrite contains_empty. reflexivity.
Qed.

Lemma filter_all {A} (f : A -> bool) (l : list A) :
  (forall x, f x = true) -> filter f l = l.
Proof.
  intros H. induction l as [|x l IH]; simpl; [reflexivity|].
  rewrite H, IH. reflexivity.
Qed.

Lemma truthy_false q : Py.truthy q = false -> q = EmptyString.
Proof. destruct q; [reflexivity | discriminate]. Qed.

Lemma filtered_blank {R} (fields : R -> list (option string)) q rows :
  (forall r, fields r <> []) ->
  Py.lower (Py.strip q) = EmptyString ->
  filtered fields (Some q) rows = rows.
Proof.
  intros Hf Hq. unfold filtered.
  destruct (Py.truthy q); [|reflexivity].
  apply filter_all. intros r. apply match_blank; auto.
Qed.

Lemma filtered_normalised {R} (fields : R -> list (option string)) q1 q2 rows :
  (forall r, fields r <> []) ->
  Py.lower (Py.strip q1) = Py.lower (Py.strip q2) ->
  filtered fields (Some q1) rows = filtered fields (Some q2) rows.
Proof.
  intros Hf Heq.
  destruct (Py.truthy q1) eqn:E1.
  - destruct (Py.truthy q2) eqn:E2.
    + unfold filtered. rewrite E1, E2. unfold _match. rewrite Heq. reflexivity.
    + apply truthy_false in E2. subst q2.
      rewrite (filtered_blank fields q1 rows Hf Heq). reflexivity.
  - apply truthy_false in E1. subst q1.
    symmetry in Heq. rewrite (filtered_blank fields q2 rows Hf Heq). reflexivity.
Qed.

Lemma filtered_In {R} (fields : R -> list (option string)) q rows r :
  (forall r, fields r <> []) ->
  In r (filtered fields (Some q) rows)
  <-> In r rows
      /\ exists v, In v (fields r)
                   /\ Py.contains (Py.lower (Py.strip q))
                        (Py.lower (Py.or_empty v)) = true.
Proof.
  intros Hf. unfold filtered.
  destruct (Py.truthy q) eqn:E.
  - rewrite filter_In. unfold _match. rewrite existsb_exists. reflexivity.
  - apply truthy_false in E. subst q. split; [|tauto].
    intros Hin. split; [exact Hin|].
    specialize (Hf r). destruct (fields r) as [|v vs]; [congruence|].
    exists v. split; [left; reflexivity|]. apply contains_empty.
Qed.

Lemma invoice_fields_nonempty r : invoice_fields r <> [].
Proof. discriminate. Qed.

Lemma customer_fields_nonempty r : customer_fields r <> [].
Proof. discriminate. Qed.

Lemma subscription_fields_nonempty r : subscription_fields r <> [].
Proof. discriminate. Qed.

(** C8. Two queries that are equal once trimmed and lowercased get the
    same response from each list route, and a row is returned exactly
    when the trimmed, lowercased query is a substring of the lowercased
    value of one of the searched fields of its type. *)
Theorem list_filter_normalised (s : Store) (q1 q2 : string) :
  Py.lower (Py.strip q1) = Py.lower (Py.strip q2) ->
  (run (list_invoices (Some q1)) s = run (list_invoices (Some q2)) s
   /\ run (list_customers (Some q1)) s = run (list_customers (Some q2)) s
   /\ run (list_subscriptions (Some q1)) s = run (list_subscriptions (Some q2)) s)
  /\ (exists rows,
        run (list_invoices (Some q1)) s = (Return rows, s)
        /\ forall r, In r rows
                     <-> In r (invoices s)
                         /\ exists v, In v (invoice_fields r)
                                      /\ Py.contains (Py.lower (Py.strip q1))
                                           (Py.lower (Py.or_empty v)) = true)
  /\ (exists rows,
        run (list_customers (Some q1)) s = (Return rows, s)
        /\ forall r, In r rows
                     <-> In r (customers s)
                         /\ exists v, In v (customer_fields r)
                                      /\ Py.contains (Py.lower (Py.strip q1))
                                           (Py.lower (Py.or_empty v)) = true)
  /\ (exists rows,
        run (list_subscriptions (Some q1)) s = (Return rows, s)
        /\ forall r, In r rows
                     <-> In r (subscriptions s)
                         /\ exists v, In v (subscription_fields r)
                                      /\ Py.contains (Py.lower (Py.strip q1))
                                           (Py.lower (Py.or_empty v)) = true).
Proof.
  intros Heq.
  rewrite !list_invoices_run, !list_customers_run, !list_subscriptions_run.
  split; [repeat split; f_equal; f_equal; apply filtered_normalised;
          auto using invoice_fields_nonempty, customer_fields_nonempty,
            subscription_fields_nonempty|].
  repeat split.
  - eexists. split; [reflexivity|]. intros r.
    apply filtered_In. exact invoice_fields_nonempty.
  - eexists. split; [reflexivity|]. intros r.
    apply filtered_In. exact customer_fields_nonempty.
  - eexists. split; [reflexivity|]. intros r.
    apply filtered_In. exact subscription_fields_nonempty.
Qed.

Lemma list_filter_normalised_witness :
  Py.lower (Py.strip "apex") = Py.lower (Py.strip " APEX ")
  /\ run (list_invoices (Some "apex")) (mkStore seed_invoices [] [] [])
     = run (list_invoices (Some " APEX ")) (mkStore seed_invoices [] [] []).
Proof.
  split; [reflexivity|].
  exact (proj1 (proj1 (list_filter_normalised
                         (mkStore seed_invoices [] [] []) "apex" " APEX "
                         eq_refl))).
Defined.

(** The query apex returns the Apex invoice although it is a substring of
    none of that invoice's searched fields as they are stored. *)
Lemma stored_field_substring_fails :
  let s := mkStore [apex_invoice] [] [] [] in
  run (list_invoices (Some "apex")) s = (Return [apex_invoice], s)
  /\ forall v, In v (invoice_fields apex_invoice) ->
               Py.contains (Py.lower (Py.strip "apex")) (Py.or_empty v) = false.
Proof.
  intros s. split; [reflexivity|].
  intros v [H|[H|[H|[H|[]]]]]; subst v; reflexivity.
Qed.

(** C10. A query that is not empty and consists of whitespace only gets,
    from each list route, the response of an absent query: every row of
    the table. *)
Theorem whitespace_query_lists_all (s : Store) (q : string) :
  q <> EmptyString -> Py.all_space q = true ->
  run (list_invoices (Some q)) s = run (list_invoices None) s
  /\ run (list_customers (Some q)) s = run (list_customers None) s
  /\ run (list_subscriptions (Some q)) s = run (list_subscriptions None) s
  /\ run (list_invoices None) s = (Return (invoices s), s)
  /\ run (list_customers None) s = (Return (customers s), s)
  /\ run (list_subscriptions None) s = (Return (subscriptions s), s).
Proof.
  intros _ Hws.
  assert (Hq : Py.lower (Py.strip q) = EmptyString)
    by (rewrite (strip_all_space q Hws); reflexivity).
  rewrite !list_invoices_run, !list_customers_run, !list_subscriptions_run.
  rewrite (filtered_blank invoice_fields q _ invoice_fields_nonempty Hq).
  rewrite (filtered_blank customer_fields q _ customer_fields_nonempty Hq).
  rewrite (filtered_blank subscription_fields q _ subscription_fields_nonempty Hq).
  repeat split.
Qed.

Lemma whitespace_query_lists_all_witness :
  "  " <> EmptyString /\ Py.all_space "  " = true
  /\ run (list_invoices (Some "  ")) (mkStore seed_invoices [] [] [])
     = run (list_invoices None) (mkStore seed_invoices [] [] []).
Proof.
  assert (Hne : "  " <> EmptyString) by discriminate.
  split; [exact Hne|]. split; [reflexivity|].
  exact (proj1 (whitespace_query_lists_all
                  (mkStore seed_invoices [] [] []) "  " Hne eq_refl)).
Defined.

(** ** Command validation *)

#[local] Arguments str_in : simpl never.



Lemma fallback_none r : r <> EmptyString -> is_fallback (Command.none r).
Proof. intros H. split; [reflexivity | exact H]. Qed.


(** A structural mismatch gives the invalid-format fallback. *)
Lemma plan_obj_invalid obj :
  Command.validate obj = None ->
  exists c, plan_obj obj = Return c /\ is_fallback c.
Proof.
  intros H. unfold plan_obj. rewrite H.
  eexists. split; [reflexivity | apply fallback_none; discriminate].
Qed.


(** A candidate inside the schema is returned, with its text trimmed
    when the action is [type]. *)
Lemma plan_obj_accepted obj cmd :
  Command.validate obj = Some cmd -> spec_acceptable cmd = true ->
  (Command.action cmd <> "type" /\ plan_obj obj = Return cmd)
  \/ (Command.action cmd = "type"
      /\ exists s, dict_get "text" (Command.args cmd) = Some (JStr s)
                   /\ plan_obj obj
                      = Return (Command.set_args
                                  (dict_set "text" (JStr (Py.strip s))
                                     (Command.args cmd)) cmd)).
Proof.
  intros Hv Ha. unfold plan_obj. rewrite Hv. unfold spec_acceptable in Ha.
  apply andb_prop in Ha. destruct Ha as [Ha Hty].
  apply andb_prop in Ha. destruct Ha as [Hact Htg].
  rewrite Hact. simpl.
  assert (Htg' : match Command.target cmd with
                 | Some tg => negb (str_in tg TARGETS)
                 | None => false
                 end = false).
  { destruct (Command.target cmd); [rewrite Htg|]; reflexivity. }
  rewrite Htg'.
  destruct (Command.action cmd =? "type") eqn:Ety.
  - right. split; [apply String.eqb_eq; exact Ety|].
    apply andb_prop in Hty. destruct Hty as [Hfs Htx].
    unfold spec_text_ok in Htx. unfold args_text.
    destruct (dict_get "text" (Command.args cmd)) as [v|]; [|discriminate].
    destruct v as [|b|z|f|s|l|d]; try discriminate.
    exists s. split; [reflexivity|].
    assert (Hs : Py.truthy s = true).
    { destruct s; [discriminate Htx | reflexivity]. }
    simpl. rewrite Hs. rewrite Hfs, Htx. reflexivity.
  - left. split; [|reflexivity].
    apply String.eqb_neq. exact Ety.
Qed.

(** C2. The reply object with action [type], target [field.search] and
    the number 5 as text passes the structural validation, is outside the
    schema of section 4.4, and makes the planner raise an attribute error
    where a fallback command was due. *)
Theorem plan_obj_number_text_raises :
  Command.validate type_number_obj
  = Some (Command.mk "type" (Some "field.search") [("text", JInt 5)] "ok")
  /\ spec_acceptable
       (Command.mk "type" (Some "field.search") [("text", JInt 5)] "ok") = false
  /\ plan_obj type_number_obj = Raise AttributeError.
Proof. repeat split. Qed.

(** ** Reply extraction and the planner *)

Section AssistantProperties.

Variable OPENROUTER_API_KEY : string.
Variable json_loads : string -> option json.
Variable openrouter : string -> http_response.
Variable whisper : string -> list string.

Lemma extract_json_none reply :
  (forall d, json_loads reply <> Some (JDict d)) ->
  (forall span d, brace_span reply = Some span ->
                  json_loads span <> Some (JDict d)) ->
  _extract_json json_loads reply = None.
Proof.
  intros Hwhole Hspan. unfold _extract_json.
  destruct (json_loads reply) as [v|] eqn:Ew.
  - destruct v; try (exfalso; eapply Hwhole; reflexivity);
      (destruct (brace_span reply) as [span|] eqn:Es; [|reflexivity];
       destruct (json_loads span) as [w|] eqn:Ep; [|reflexivity];
       destruct w; try reflexivity;
       exfalso; eapply (Hspan span); [reflexivity | exact Ep]).
  - destruct (brace_span reply) as [span|] eqn:Es; [|reflexivity].
    destruct (json_loads span) as [w|] eqn:Ep; [|reflexivity].
    destruct w; try reflexivity.
    exfalso. eapply (Hspan span); [reflexivity | exact Ep].
Qed.

(** C7. When the remote call succeeds and neither the whole reply nor
    its brace span parses to a JSON object, the planner returns, after
    that one remote call, a command with action none and a reply that
    is not empty; it does not raise. *)
Theorem plan_command_unparseable (user_text active_tab reply : string)
    (log : list call) :
  let msg := "Active tab: " ++ active_tab ++ newline ++ "User: " ++ user_text in
  Py.truthy OPENROUTER_API_KEY = true ->
  (status_code (openrouter msg) < 400)%Z ->
  content (openrouter msg) = Some reply ->
  (forall d, json_loads reply <> Some (JDict d)) ->
  (forall span d, brace_span reply = Some span ->
                  json_loads span <> Some (JDict d)) ->
  exists c,
    plan_reply json_loads reply = Return c
    /\ plan_command OPENROUTER_API_KEY json_loads openrouter
         user_text active_tab log
       = (Return c, (log ++ [CallOpenRouter msg])%list)
    /\ is_fallback c.
Proof.
  intros msg Hkey Hstatus Hcontent Hwhole Hspan.
  pose proof (extract_json_none reply Hwhole Hspan) as Hex.
  eexists. split; [|split].
  - unfold plan_reply. rewrite Hex. reflexivity.
  - assert (Hge : (status_code (openrouter msg) >=? 400)%Z = false)
      by (rewrite Z.geb_leb; apply Z.leb_gt; exact Hstatus).
    unfold msg in *.
    unfold plan_command, bind, post_openrouter, raise. rewrite Hkey.
    cbv beta iota delta [negb].
    rewrite Hge, Hcontent. unfold plan_reply. rewrite Hex. reflexivity.
  - apply fallback_none. discriminate.
Qed.

(** C9. When transcription gives the empty string, the voice route
    returns the empty transcript with the nothing-heard command, whose
    action is none; the only outside call it makes is the one to the
    speech model, whatever the key and the remote model are. *)
Theorem voice_nothing_heard (audio active_tab : string) (log : list call) :
  fst (transcribe_audio whisper audio log) = Return EmptyString ->
  assistant_voice OPENROUTER_API_KEY json_loads openrouter whisper
    audio active_tab log
  = (Return (mk_assistant_response EmptyString
               (Command.none "I could not hear anything. Try again.")),
     (log ++ [CallWhisper audio])%list)
  /\ Command.action (Command.none "I could not hear anything. Try again.")
     = "none"
  /\ forall m, ~ In (CallOpenRouter m) [CallWhisper audio].
Proof.
  intros H. split; [|split].
  - unfold transcribe_audio, bind, call_whisper, ret in H. simpl in H.
    injection H as Ht.
    unfold assistant_voice, transcribe_audio, bind, call_whisper, ret.
    cbv beta iota. rewrite Ht. reflexivity.
  - reflexivity.
  - intros m [Hm|[]]. discriminate Hm.
Qed.

End AssistantProperties.

Lemma plan_command_unparseable_witness :
  let reply := "Sorry, I can only chat." in
  Py.truthy "sk-or-test" = true
  /\ content (sample_openrouter reply "x") = Some reply
  /\ (forall d, sample_json_loads reply <> Some (JDict d))
  /\ brace_span reply = None
  /\ exists c,
       plan_command "sk-or-test" sample_json_loads (sample_openrouter reply)
         "open the pod bay doors" "dashboard" []
       = (Return c,
          [CallOpenRouter ("Active tab: dashboard" ++ newline
                           ++ "User: open the pod bay doors")])
       /\ is_fallback c.
Proof.
  intros reply.
  assert (Hw : forall d, sample_json_loads reply <> Some (JDict d))
    by (intros d; discriminate).
  assert (Hs : forall span d, brace_span reply = Some span ->
                              sample_json_loads span <> Some (JDict d))
    by (intros span d; discriminate).
  split; [reflexivity|]. split; [reflexivity|]. split; [exact Hw|].
  split; [reflexivity|].
  destruct (plan_command_unparseable "sk-or-test" sample_json_loads
              (sample_openrouter reply) "open the pod bay doors" "dashboard"
              reply [] eq_refl eq_refl eq_refl Hw Hs) as (c & _ & Hc & Hf).
  exists c. split; [exact Hc | exact Hf].
Defined.

Lemma voice_nothing_heard_witness :
  let whisper := fun _ : string => ["  "; EmptyString] in
  fst (transcribe_audio whisper "RIFF" []) = Return EmptyString
  /\ assistant_voice EmptyString sample_json_loads
       (sample_openrouter "{}") whisper "RIFF" "dashboard" []
     = (Return (mk_assistant_response EmptyString
                  (Command.none "I could not hear anything. Try again.")),
        [CallWhisper "RIFF"]).
Proof.
  intros whisper. split; [reflexivity|].
  exact (proj1 (voice_nothing_heard EmptyString sample_json_loads
                  (sample_openrouter "{}") whisper "RIFF" "dashboard" []
                  eq_refl)).
Defined.

(** * Further properties of the code *)

(** ** Trimming, lowercasing and substrings *)

Lemma isspace_lower_char c : Py.isspace (Py.lower_char c) = Py.isspace c.
Proof. destruct c as [[] [] [] [] [] [] [] []]; reflexivity. Qed.

Lemma lower_char_idem c : Py.lower_char (Py.lower_char c) = Py.lower_char c.
Proof. destruct c as [[] [] [] [] [] [] [] []]; reflexivity. Qed.

Lemma lower_idem s : Py.lower (Py.lower s) = Py.lower s.
Proof.
  induction s as [|c s IH]; simpl; [reflexivity|].
  rewrite lower_char_idem, IH. reflexivity.
Qed.

Lemma lstrip_lower s : Py.lstrip (Py.lower s) = Py.lower (Py.lstrip s).
Proof.
  induction s as [|c s IH]; simpl; [reflexivity|].
  rewrite isspace_lower_char. destruct (Py.isspace c); [exact IH | reflexivity].
Qed.

Lemma rstrip_lower s : Py.rstrip (Py.lower s) = Py.lower (Py.rstrip s).
Proof.
  induction s as [|c s IH]; simpl; [reflexivity|].
  rewrite IH, isspace_lower_char.
  destruct (Py.rstrip s) as [|c' r]; simpl; [|reflexivity].
  destruct (Py.isspace c); reflexivity.
Qed.

Lemma strip_lower s : Py.strip (Py.lower s) = Py.lower (Py.strip s).
Proof. unfold Py.strip. rewrite lstrip_lower, rstrip_lower. reflexivity. Qed.

Lemma rstrip_idem s : Py.rstrip (Py.rstrip s) = Py.rstrip s.
Proof.
  induction s as [|c s IH]; simpl; [reflexivity|].
  destruct (Py.rstrip s) as [|c' r] eqn:E.
  - destruct (Py.isspace c) eqn:Ec; simpl; [reflexivity|].
    rewrite Ec. reflexivity.
  - change (Py.rstrip (String c (String c' r)))
      with (match Py.rstrip (String c' r) with
            | EmptyString =>
                if Py.isspace c then EmptyString else String c EmptyString
            | String a b => String c (String a b)
            end).
    rewrite IH. reflexivity.
Qed.

Lemma lstrip_head s :
  match Py.lstrip s with
  | EmptyString => True
  | String c _ => Py.isspace c = false
  end.
Proof.
  induction s as [|c s IH]; simpl; [exact I|].
  destruct (Py.isspace c) eqn:E; [exact IH | exact E].
Qed.

Lemma rstrip_head s :
  match s with
  | EmptyString => True
  | String c _ => Py.isspace c = false
  end ->
  Py.lstrip (Py.rstrip s) = Py.rstrip s.
Proof.
  destruct s as [|c s]; simpl; [reflexivity|]. intros Hc.
  destruct (Py.rstrip s) as [|c' r]; rewrite ?Hc; simpl; rewrite Hc; reflexivity.
Qed.

Lemma strip_idem s : Py.strip (Py.strip s) = Py.strip s.
Proof.
  unfold Py.strip.
  rewrite (rstrip_head (Py.lstrip s) (lstrip_head s)).
  apply rstrip_idem.
Qed.

Lemma rstrip_nonempty c s :
  Py.isspace c = false -> Py.rstrip (String c s) <> EmptyString.
Proof.
  intros Hc. simpl. destruct (Py.rstrip s); rewrite ?Hc; discriminate.
Qed.

Lemma append_assoc_str (a b c : string) : (a ++ b) ++ c = a ++ (b ++ c).
Proof. induction a as [|x a IH]; simpl; [reflexivity | rewrite IH; reflexivity]. Qed.

Lemma prefix_iff p s :
  String.prefix p s = true <-> exists post, s = p ++ post.
Proof.
  revert s. induction p as [|c p IH]; intros s; simpl.
  - split; [intros _; exists s; reflexivity | intros _; destruct s; reflexivity].
  - destruct s as [|c' s].
    + split; [discriminate | intros [post H]; discriminate H].
    + simpl. destruct (ascii_dec c c') as [->|Hne].
      * rewrite IH. split; intros [post H]; exists post.
        -- rewrite H. reflexivity.
        -- inversion H. reflexivity.
      * split; [discriminate|]. intros [post H]. inversion H. congruence.
Qed.

Lemma contains_unfold sub s :
  Py.contains sub s
  = (String.prefix sub s
     || match s with
        | EmptyString => false
        | String _ s' => Py.contains sub s'
        end).
Proof. destruct s; reflexivity. Qed.

Lemma contains_iff sub s :
  Py.contains sub s = true <-> exists pre post, s = pre ++ sub ++ post.
Proof.
  induction s as [|c s IH]; rewrite contains_unfold.
  - rewrite orb_false_r, prefix_iff. split.
    + intros [post H]. exists EmptyString, post. exact H.
    + intros (pre & post & H). destruct pre as [|x pre]; simpl in H.
      * exists post. exact H.
      * discriminate H.
  - rewrite orb_true_iff, prefix_iff, IH. split.
    + intros [[post H]|(pre & post & H)].
      * exists EmptyString, post. exact H.
      * exists (String c pre), post. simpl. rewrite H. reflexivity.
    + intros (pre & post & H). destruct pre as [|x pre]; simpl in H.
      * left. exists post. exact H.
      * right. inversion H. exists pre, post. reflexivity.
Qed.

Lemma contains_trans a b c :
  Py.contains a b = true -> Py.contains b c = true -> Py.contains a c = true.
Proof.
  rewrite !contains_iff. intros (p1 & q1 & H1) (p2 & q2 & H2).
  exists (p2 ++ p1), (q1 ++ q2). subst b c.
  rewrite !append_assoc_str. reflexivity.
Qed.

Lemma contains_in_empty a : Py.contains a EmptyString = true -> a = EmptyString.
Proof.
  rewrite contains_iff. intros (pre & post & H).
  destruct pre; [|discriminate H]. destruct a; [reflexivity | discriminate H].
Qed.

(** ** Create, then look up *)

Lemma find_snoc {R} (f : R -> bool) (l : list R) (x : R) :
  find f (l ++ [x])
  = match find f l with
    | Some r => Some r
    | None => if f x then Some x else None
    end.
Proof.
  induction l as [|y l IH]; simpl; [reflexivity|].
  destruct (f y); [reflexivity | exact IH].
Qed.

Lemma find_customer_absent k rows :
  (forall r, In r rows -> Customer.id r <> k) -> find_customer k rows = None.
Proof.
  intros H. unfold find_customer.
  destruct (find (fun r => Customer.id r =? k) rows) as [r|] eqn:E; [|reflexivity].
  apply find_some in E. destruct E as [Hin Heq].
  apply String.eqb_eq in Heq. exfalso. exact (H r Hin Heq).
Qed.

(** Creating an invoice under an identifier no stored invoice carries
    returns the record, appends it as the last row in one unit of work
    of its own, and the record is then found under its identifier and
    listed last by the invoice list. *)
Theorem create_invoice_fresh (s : Store) (inv : Invoice.t) :
  (forall r, In r (invoices s) -> Invoice.id r <> Invoice.id inv) ->
  let s' := mkStore (invoices s ++ [inv]) (customers s) (subscriptions s)
                    (payments s) in
  run (create_invoice inv) s = (Return inv, s')
  /\ transactions (create_invoice inv) s = [[NewInvoice inv]]
  /\ find_invoice (Invoice.id inv) (invoices s') = Some inv
  /\ run (list_invoices None) s' = (Return (invoices s ++ [inv])%list, s').
Proof.
  intros Hfresh s'. apply find_invoice_absent in Hfresh.
  assert (Hf : find_invoice (Invoice.id inv) (invoices s ++ [inv]) = Some inv).
  { unfold find_invoice in *. rewrite find_snoc, Hfresh, String.eqb_refl.
    reflexivity. }
  repeat split.
  - unfold_route. rewrite Hfresh. simpl. rewrite Hfresh. simpl.
    rewrite Hf. reflexivity.
  - unfold_route. rewrite Hfresh. simpl. rewrite Hfresh. simpl.
    rewrite Hf. reflexivity.
  - exact Hf.
Qed.

Lemma create_invoice_fresh_witness :
  (forall r, In r (invoices empty_store) -> Invoice.id r <> Invoice.id apex_invoice)
  /\ run (create_invoice apex_invoice) empty_store
     = (Return apex_invoice, mkStore [apex_invoice] [] [] []).
Proof.
  assert (H : forall r, In r (invoices empty_store) ->
                        Invoice.id r <> Invoice.id apex_invoice)
    by (intros r []).
  split; [exact H|].
  exact (proj1 (create_invoice_fresh empty_store apex_invoice H)).
Defined.

(** Creating a customer under an identifier no stored customer carries
    returns the record, appends it as the last row in one unit of work
    of its own, and the record is then found under its identifier and
    listed last by the customer list. *)
Theorem create_customer_fresh (s : Store) (c : Customer.t) :
  (forall r, In r (customers s) -> Customer.id r <> Customer.id c) ->
  let s' := mkStore (invoices s) (customers s ++ [c]) (subscriptions s)
                    (payments s) in
  run (create_customer c) s = (Return c, s')
  /\ transactions (create_customer c) s = [[NewCustomer c]]
  /\ find_customer (Customer.id c) (customers s') = Some c
  /\ run (list_customers None) s' = (Return (customers s ++ [c])%list, s').
Proof.
  intros Hfresh s'. apply find_customer_absent in Hfresh.
  assert (Hf : find_customer (Customer.id c) (customers s ++ [c]) = Some c).
  { unfold find_customer in *. rewrite find_snoc, Hfresh, String.eqb_refl.
    reflexivity. }
  repeat split.
  - unfold_route. rewrite Hfresh. simpl. rewrite Hfresh. simpl.
    rewrite Hf. reflexivity.
  - unfold_route. rewrite Hfresh. simpl. rewrite Hfresh. simpl.
    rewrite Hf. reflexivity.
  - exact Hf.
Qed.

Lemma create_customer_fresh_witness :
  (forall r, In r (customers empty_store) ->
             Customer.id r <> Customer.id walk_in_customer)
  /\ run (create_customer walk_in_customer) empty_store
     = (Return walk_in_customer, mkStore [] [walk_in_customer] [] []).
Proof.
  assert (H : forall r, In r (customers empty_store) ->
                        Customer.id r <> Customer.id walk_in_customer)
    by (intros r []).
  split; [exact H|].
  exact (proj1 (create_customer_fresh empty_store walk_in_customer H)).
Defined.

(** Whatever the store, once a create request for an identifier has been
    served, a second create request for that identifier raises the 409
    error and changes nothing, for invoices and for customers. *)
Theorem create_again_conflicts (s : Store) :
  (forall inv inv2,
      Invoice.id inv2 = Invoice.id inv ->
      run (create_invoice inv2) (snd (run (create_invoice inv) s))
      = (Raise (HTTPException 409 "Invoice id already exists"),
         snd (run (create_invoice inv) s)))
  /\ (forall c c2,
      Customer.id c2 = Customer.id c ->
      run (create_customer c2) (snd (run (create_customer c) s))
      = (Raise (HTTPException 409 "Customer id already exists"),
         snd (run (create_customer c) s))).
Proof.
  split.
  - intros inv inv2 Hid.
    assert (Hex : exists r, find_invoice (Invoice.id inv2)
                              (invoices (snd (run (create_invoice inv) s)))
                            = Some r).
    { rewrite Hid.
      destruct (find_invoice (Invoice.id inv) (invoices s)) as [r|] eqn:E.
      - exists r. unfold_route. rewrite E. simpl. exact E.
      - exists inv. unfold_route. rewrite E. simpl. rewrite E. simpl.
        assert (Hf : find_invoice (Invoice.id inv) (invoices s ++ [inv])
                     = Some inv).
        { unfold find_invoice in *. rewrite find_snoc, E, String.eqb_refl.
          reflexivity. }
        rewrite Hf. simpl. exact Hf. }
    destruct Hex as [r Hr].
    generalize dependent (snd (run (create_invoice inv) s)). intros s1 Hr.
    unfold_route. rewrite Hr. reflexivity.
  - intros c c2 Hid.
    assert (Hex : exists r, find_customer (Customer.id c2)
                              (customers (snd (run (create_customer c) s)))
                            = Some r).
    { rewrite Hid.
      destruct (find_customer (Customer.id c) (customers s)) as [r|] eqn:E.
      - exists r. unfold_route. rewrite E. simpl. exact E.
      - exists c. unfold_route. rewrite E. simpl. rewrite E. simpl.
        assert (Hf : find_customer (Customer.id c) (customers s ++ [c])
                     = Some c).
        { unfold find_customer in *. rewrite find_snoc, E, String.eqb_refl.
          reflexivity. }
        rewrite Hf. simpl. exact Hf. }
    destruct Hex as [r Hr].
    generalize dependent (snd (run (create_customer c) s)). intros s1 Hr.
    unfold_route. rewrite Hr. reflexivity.
Qed.

Lemma create_again_conflicts_witness :
  Invoice.id bluesky_paid = Invoice.id bluesky_paid
  /\ run (create_invoice bluesky_paid)
         (snd (run (create_invoice bluesky_paid) empty_store))
     = (Raise (HTTPException 409 "Invoice id already exists"),
        snd (run (create_invoice bluesky_paid) empty_store)).
Proof.
  split; [reflexivity|].
  exact (proj1 (create_again_conflicts empty_store)
           bluesky_paid bluesky_paid eq_refl).
Defined.

(** ** Paying again *)

(** Paying an invoice a second time succeeds like the first: the invoice
    ends as if paid once with the second method, and the payment table
    has grown by two rows, both with the invoice's amount. *)
Theorem pay_invoice_twice (s : Store) (I M1 M2 : string) (t1 t2 : datetime)
    (inv : Invoice.t) :
  find_invoice I (invoices s) = Some inv ->
  let s1 := snd (run (pay_invoice t1 I M1) s) in
  let s2 := snd (run (pay_invoice t2 I M2) s1) in
  fst (run (pay_invoice t2 I M2) s1) = Return (mk_pay_response true I)
  /\ find_invoice I (invoices s2)
     = Some (Invoice.set_method M2 (Invoice.set_status "paid" inv))
  /\ exists i1 i2,
       payments s2
       = (payments s ++ [Payment.mk (Some i1) I (Invoice.amount inv) M1 t1;
                         Payment.mk (Some i2) I (Invoice.amount inv) M2 t2])%list.
Proof.
  intros Hf s1 s2.
  destruct (find_invoice_id _ _ _ Hf) as [Hid _].
  set (inv1 := Invoice.set_method M1 (Invoice.set_status "paid" inv)).
  assert (Hid1 : Invoice.id inv1 = I) by exact Hid.
  assert (Hs1 : s1 = mkStore (update_invoice inv1 (invoices s)) (customers s)
                       (subscriptions s)
                       (payments s
                        ++ [Payment.mk (Some (next_payment_id (payments s))) I
                              (Invoice.amount inv) M1 t1])).
  { subst s1. unfold_route. rewrite Hf. reflexivity. }
  assert (Hf1 : find_invoice I (invoices s1) = Some inv1).
  { rewrite Hs1. simpl. rewrite <- Hid1.
    apply find_update_same with (old := inv). rewrite Hid1. exact Hf. }
  set (inv2 := Invoice.set_method M2 (Invoice.set_status "paid" inv1)).
  assert (Hid2 : Invoice.id inv2 = I) by exact Hid.
  assert (Hs2 : run (pay_invoice t2 I M2) s1
                = (Return (mk_pay_response true I),
                   mkStore (update_invoice inv2 (invoices s1)) (customers s1)
                     (subscriptions s1)
                     (payments s1
                      ++ [Payment.mk (Some (next_payment_id (payments s1))) I
                            (Invoice.amount inv1) M2 t2]))).
  { unfold_route. rewrite Hf1. reflexivity. }
  subst s2. rewrite Hs2. simpl. split; [reflexivity|]. split.
  - rewrite <- Hid2 at 1.
    replace (Invoice.set_method M2 (Invoice.set_status "paid" inv)) with inv2
      by reflexivity.
    apply find_update_same with (old := inv1). rewrite Hid2. exact Hf1.
  - rewrite Hs1. simpl. eexists. eexists.
    rewrite <- app_assoc. reflexivity.
Qed.

Lemma pay_invoice_twice_witness :
  let s := mkStore [apex_invoice] [] [] [] in
  find_invoice "INV-10428" (invoices s) = Some apex_invoice
  /\ exists i1 i2,
       payments (snd (run (pay_invoice 2 "INV-10428" "Cash")
                        (snd (run (pay_invoice 1 "INV-10428" "Card") s))))
       = [Payment.mk (Some i1) "INV-10428" 48900 "Card" 1;
          Payment.mk (Some i2) "INV-10428" 48900 "Cash" 2].
Proof.
  intros s. split; [reflexivity|].
  exact (proj2 (proj2 (pay_invoice_twice s "INV-10428" "Card" "Cash" 1%Z 2%Z
                         apex_invoice eq_refl))).
Defined.

(** ** Seed: all or nothing *)

Lemma find_subscription_snoc k l x :
  find_subscription k (l ++ [x])
  = match find_subscription k l with
    | Some r => Some r
    | None => if Subscription.id x =? k then Some x else None
    end.
Proof. unfold find_subscription. exact (find_snoc _ l x). Qed.

Lemma find_customer_snoc k l x :
  find_customer k (l ++ [x])
  = match find_customer k l with
    | Some r => Some r
    | None => if Customer.id x =? k then Some x else None
    end.
Proof. unfold find_customer. exact (find_snoc _ l x). Qed.

(** With no invoice stored, the seed route either inserts the whole demo
    dataset behind the rows already stored, in one unit of work, or, when
    a stored customer or subscription carries an identifier of the
    dataset, raises the integrity error and inserts nothing at all. *)
Theorem seed_all_or_nothing (now : datetime) (s : Store) :
  invoices s = [] ->
  if seed_clash s then
    run (seed_if_empty now) s = (Raise IntegrityError, s)
    /\ transactions (seed_if_empty now) s = []
  else
    run (seed_if_empty now) s
    = (Return (mk_seed_response true true),
       mkStore seed_invoices (customers s ++ seed_customers now)
               (subscriptions s ++ seed_subscriptions) (payments s))
    /\ transactions (seed_if_empty now) s
       = [(map NewInvoice seed_invoices
           ++ map NewSubscription seed_subscriptions
           ++ map NewCustomer (seed_customers now))%list].
Proof.
  destruct s as [iv cu su pa]. simpl. intros ->.
  unfold seed_clash. simpl.
  unfold_route.
  destruct (find_subscription "SUB-2201" su) eqn:E1; simpl;
    [split; reflexivity|].
  rewrite find_subscription_snoc. simpl.
  destruct (find_subscription "SUB-2202" su) eqn:E2; simpl;
    [split; reflexivity|].
  destruct (find_customer "CUST-901" cu) eqn:E3; simpl;
    [split; reflexivity|].
  rewrite find_customer_snoc. simpl.
  destruct (find_customer "CUST-902" cu) eqn:E4; simpl;
    [split; reflexivity|].
  rewrite <- !app_assoc. simpl. split; reflexivity.
Qed.

Lemma seed_all_or_nothing_witness :
  invoices (mkStore [] [walk_in_customer] [] []) = []
  /\ run (seed_if_empty 3) (mkStore [] [walk_in_customer] [] [])
     = (Return (mk_seed_response true true),
        mkStore seed_invoices (walk_in_customer :: seed_customers 3)
                seed_subscriptions []).
Proof.
  split; [reflexivity|].
  exact (proj1 (seed_all_or_nothing 3%Z (mkStore [] [walk_in_customer] [] [])
                  eq_refl)).
Defined.

(** ** List routes *)

Lemma filtered_incl {R} (fields : R -> list (option string)) q rows :
  incl (filtered fields q rows) rows.
Proof.
  unfold filtered. destruct q as [q|]; [|apply incl_refl].
  destruct (Py.truthy q); [apply incl_filter | apply incl_refl].
Qed.

Lemma list_transactions q s :
  transactions (list_invoices q) s = []
  /\ transactions (list_customers q) s = []
  /\ transactions (list_subscriptions q) s = [].
Proof.
  repeat split; unfold_route;
    (destruct q as [q|]; [destruct (Py.truthy q)|]; reflexivity).
Qed.

(** The three list routes never write: for every query the store is left
    as it was and nothing is committed; every row returned is a stored
    row; and with the query absent or empty the whole table is returned. *)
Theorem list_routes_read_only (q : option string) (s : Store) :
  (exists rows,
      run (list_invoices q) s = (Return rows, s)
      /\ transactions (list_invoices q) s = []
      /\ incl rows (invoices s)
      /\ (q = None \/ q = Some EmptyString -> rows = invoices s))
  /\ (exists rows,
      run (list_customers q) s = (Return rows, s)
      /\ transactions (list_customers q) s = []
      /\ incl rows (customers s)
      /\ (q = None \/ q = Some EmptyString -> rows = customers s))
  /\ (exists rows,
      run (list_subscriptions q) s = (Return rows, s)
      /\ transactions (list_subscriptions q) s = []
      /\ incl rows (subscriptions s)
      /\ (q = None \/ q = Some EmptyString -> rows = subscriptions s)).
Proof.
  destruct (list_transactions q s) as (Ti & Tc & Ts).
  rewrite list_invoices_run, list_customers_run, list_subscriptions_run.
  repeat split;
    (eexists; split; [reflexivity|]; split; [assumption|]; split;
     [apply filtered_incl | intros [->| ->]; reflexivity]).
Qed.

Lemma list_routes_read_only_witness :
  exists rows,
    run (list_invoices (Some EmptyString)) (mkStore seed_invoices [] [] [])
    = (Return rows, mkStore seed_invoices [] [] [])
    /\ (Some EmptyString = None \/ Some EmptyString = Some EmptyString ->
        rows = seed_invoices).
Proof.
  destruct (proj1 (list_routes_read_only (Some EmptyString)
                     (mkStore seed_invoices [] [] [])))
    as (rows & Hr & _ & _ & Hall).
  exists rows. split; [exact Hr | exact Hall].
Defined.

Lemma normalise_lower q :
  Py.lower (Py.strip (Py.lower q)) = Py.lower (Py.strip q).
Proof. rewrite strip_lower. apply lower_idem. Qed.

(** The letter case of the query is irrelevant: a query and its
    lowercased form get the same response from each list route. *)
Theorem list_query_case_insensitive (q : string) (s : Store) :
  run (list_invoices (Some (Py.lower q))) s = run (list_invoices (Some q)) s
  /\ run (list_customers (Some (Py.lower q))) s = run (list_customers (Some q)) s
  /\ run (list_subscriptions (Some (Py.lower q))) s
     = run (list_subscriptions (Some q)) s.
Proof.
  rewrite !list_invoices_run, !list_customers_run, !list_subscriptions_run.
  repeat split; f_equal; f_equal; apply filtered_normalised;
    auto using invoice_fields_nonempty, customer_fields_nonempty,
      subscription_fields_nonempty, normalise_lower.
Qed.

Lemma filtered_narrow {R} (fields : R -> list (option string)) q1 q2 rows :
  (forall r, fields r <> []) ->
  Py.contains (Py.lower (Py.strip q1)) (Py.lower (Py.strip q2)) = true ->
  incl (filtered fields (Some q2) rows) (filtered fields (Some q1) rows).
Proof.
  intros Hf Hc r Hin.
  apply (filtered_In fields q2 rows r Hf) in Hin.
  destruct Hin as (Hr & v & Hv & Hm).
  apply (filtered_In fields q1 rows r Hf). split; [exact Hr|].
  exists v. split; [exact Hv|].
  exact (contains_trans _ _ _ Hc Hm).
Qed.

(** Extending a query narrows the result: when the normalised form of
    one query is a substring of the normalised form of another, every
    row returned for the longer one is returned for the shorter one. *)
Theorem list_query_narrowing (q1 q2 : string) (s : Store) :
  Py.contains (Py.lower (Py.strip q1)) (Py.lower (Py.strip q2)) = true ->
  (exists rows1 rows2,
      run (list_invoices (Some q1)) s = (Return rows1, s)
      /\ run (list_invoices (Some q2)) s = (Return rows2, s)
      /\ incl rows2 rows1)
  /\ (exists rows1 rows2,
      run (list_customers (Some q1)) s = (Return rows1, s)
      /\ run (list_customers (Some q2)) s = (Return rows2, s)
      /\ incl rows2 rows1)
  /\ (exists rows1 rows2,
      run (list_subscriptions (Some q1)) s = (Return rows1, s)
      /\ run (list_subscriptions (Some q2)) s = (Return rows2, s)
      /\ incl rows2 rows1).
Proof.
  intros Hc.
  rewrite !list_invoices_run, !list_customers_run, !list_subscriptions_run.
  repeat split;
    (eexists; eexists; split; [reflexivity|]; split; [reflexivity|];
     apply filtered_narrow;
     auto using invoice_fields_nonempty, customer_fields_nonempty,
       subscription_fields_nonempty).
Qed.

Lemma list_query_narrowing_witness :
  Py.contains (Py.lower (Py.strip "Sky")) (Py.lower (Py.strip " bluesky "))
  = true
  /\ exists rows1 rows2,
       run (list_invoices (Some "Sky")) (mkStore seed_invoices [] [] [])
       = (Return rows1, mkStore seed_invoices [] [] [])
       /\ run (list_invoices (Some " bluesky ")) (mkStore seed_invoices [] [] [])
          = (Return rows2, mkStore seed_invoices [] [] [])
       /\ incl rows2 rows1.
Proof.
  split; [reflexivity|].
  exact (proj1 (list_query_narrowing "Sky" " bluesky "
                  (mkStore seed_invoices [] [] []) eq_refl)).
Defined.

(** ** What no sequence of requests undoes *)

Lemma find_invoice_app k l l' inv :
  find_invoice k l = Some inv -> find_invoice k (l ++ l') = Some inv.
Proof.
  unfold find_invoice. induction l as [|r l IH]; simpl; [discriminate|].
  destruct (Invoice.id r =? k); [auto | exact IH].
Qed.

Lemma same_core_refl a : same_core a a.
Proof. repeat split. Qed.

Lemma same_core_trans a b c : same_core a b -> same_core b c -> same_core a c.
Proof.
  intros (H1 & H2 & H3 & H4 & H5 & H6) (K1 & K2 & K3 & K4 & K5 & K6).
  repeat split; congruence.
Qed.

Lemma serve_invoice_kept now r s k inv :
  find_invoice k (invoices s) = Some inv ->
  exists inv',
    find_invoice k (invoices (serve now r s)) = Some inv'
    /\ same_core inv inv'
    /\ (Invoice.status inv = "paid" -> Invoice.status inv' = "paid").
Proof.
  intros Hf.
  assert (Hsame : exists inv',
             find_invoice k (invoices s) = Some inv' /\ same_core inv inv'
             /\ (Invoice.status inv = "paid" -> Invoice.status inv' = "paid")).
  { exists inv. split; [exact Hf|]. split; [apply same_core_refl | auto]. }
  destruct r as [q|inv0|I M|q|c|q|]; simpl.
  - rewrite list_invoices_run. exact Hsame.
  - destruct (create_invoice_store inv0 s) as [E|E]; rewrite E; [exact Hsame|].
    simpl. exists inv. split; [apply find_invoice_app; exact Hf|].
    split; [apply same_core_refl | auto].
  - destruct (pay_invoice_store now I M s) as [E|(inv1 & Hf1 & E)]; rewrite E;
      [exact Hsame|]. simpl.
    destruct (find_invoice_id _ _ _ Hf1) as [Hid _].
    destruct (string_dec k I) as [->|Hne].
    + rewrite Hf in Hf1. inversion Hf1; subst inv1.
      exists (Invoice.set_method M (Invoice.set_status "paid" inv)).
      split.
      * replace I with
          (Invoice.id (Invoice.set_method M (Invoice.set_status "paid" inv)))
          at 1 by exact Hid.
        apply find_update_same with (old := inv). simpl. rewrite Hid. exact Hf.
      * split; [repeat split | reflexivity].
    + exists inv. split.
      * rewrite find_update_other; [exact Hf|]. simpl. rewrite Hid. exact Hne.
      * split; [apply same_core_refl | auto].
  - rewrite list_customers_run. exact Hsame.
  - destruct (create_customer_store c s) as [E|E]; rewrite E; exact Hsame.
  - rewrite list_subscriptions_run. exact Hsame.
  - destruct (seed_store now s) as [E|(He & _)].
    + rewrite E. exact Hsame.
    + rewrite He in Hf. discriminate Hf.
Qed.

Lemma replay_invoice_kept rs :
  forall s k inv,
    find_invoice k (invoices s) = Some inv ->
    exists inv',
      find_invoice k (invoices (replay rs s)) = Some inv'
      /\ same_core inv inv'
      /\ (Invoice.status inv = "paid" -> Invoice.status inv' = "paid").
Proof.
  induction rs as [|[now r] rs IH]; intros s k inv Hf.
  - exists inv. split; [exact Hf|]. split; [apply same_core_refl | auto].
  - destruct (serve_invoice_kept now r s k inv Hf) as (inv1 & Hf1 & Hc1 & Hp1).
    destruct (IH (serve now r s) k inv1 Hf1) as (inv2 & Hf2 & Hc2 & Hp2).
    exists inv2. split; [exact Hf2|].
    split; [exact (same_core_trans _ _ _ Hc1 Hc2) | auto].
Qed.

(** No sequence of requests deletes an invoice or rewrites its customer,
    amount, currency, due date or creation date: an invoice found under
    an identifier is still found under it afterwards, with those fields
    as they were. *)
Theorem invoice_core_immutable (rs : list (datetime * request)) (s : Store)
    (k : string) (inv : Invoice.t) :
  find_invoice k (invoices s) = Some inv ->
  exists inv',
    find_invoice k (invoices (replay rs s)) = Some inv' /\ same_core inv inv'.
Proof.
  intros Hf. destruct (replay_invoice_kept rs s k inv Hf) as (inv' & H1 & H2 & _).
  exists inv'. auto.
Qed.

Lemma invoice_core_immutable_witness :
  let s := mkStore [apex_invoice] [] [] [] in
  find_invoice "INV-10428" (invoices s) = Some apex_invoice
  /\ exists inv',
       find_invoice "INV-10428" (invoices (replay seed_then_pay s)) = Some inv'
       /\ same_core apex_invoice inv'.
Proof.
  intros s. split; [reflexivity|].
  exact (invoice_core_immutable seed_then_pay s "INV-10428" apex_invoice eq_refl).
Defined.

(** Paid is final: an invoice that reads paid still reads paid after any
    sequence of requests. *)
Theorem paid_stays_paid (rs : list (datetime * request)) (s : Store)
    (k : string) (inv : Invoice.t) :
  find_invoice k (invoices s) = Some inv -> Invoice.status inv = "paid" ->
  exists inv',
    find_invoice k (invoices (replay rs s)) = Some inv'
    /\ Invoice.status inv' = "paid".
Proof.
  intros Hf Hp.
  destruct (replay_invoice_kept rs s k inv Hf) as (inv' & H1 & _ & H3).
  exists inv'. auto.
Qed.

Lemma paid_stays_paid_witness :
  let s := mkStore [apex_invoice] [] [] [] in
  find_invoice "INV-10428" (invoices s) = Some apex_invoice
  /\ Invoice.status apex_invoice = "paid"
  /\ exists inv',
       find_invoice "INV-10428" (invoices (replay seed_then_pay s)) = Some inv'
       /\ Invoice.status inv' = "paid".
Proof.
  intros s. split; [reflexivity|]. split; [reflexivity|].
  exact (paid_stays_paid seed_then_pay s "INV-10428" apex_invoice
           eq_refl eq_refl).
Defined.

(** ** Tables only grow *)

Lemma extends_refl s : extends s s.
Proof. repeat split; exists []; rewrite app_nil_r; reflexivity. Qed.

Lemma flush_one_extends s0 s w d :
  extends s0 s -> flush_one s w = Some d -> extends s0 d.
Proof.
  intros ([ei Hi] & [ec Hc] & [es Hs] & [ep Hp]) Hf.
  destruct w as [inv|inv|c|sub|p]; simpl in Hf.
  - destruct (find_invoice _ _); [discriminate|]. inversion Hf; subst d.
    repeat split; simpl; eauto.
    exists (ei ++ [Invoice.id inv])%list.
    rewrite map_app, Hi, <- app_assoc. reflexivity.
  - inversion Hf; subst d. repeat split; simpl; eauto.
    exists ei. rewrite update_invoice_ids. exact Hi.
  - destruct (find_customer _ _); [discriminate|]. inversion Hf; subst d.
    repeat split; simpl; eauto.
    exists (ec ++ [c])%list. rewrite Hc, <- app_assoc. reflexivity.
  - destruct (find_subscription _ _); [discriminate|]. inversion Hf; subst d.
    repeat split; simpl; eauto.
    exists (es ++ [sub])%list. rewrite Hs, <- app_assoc. reflexivity.
  - inversion Hf; subst d. repeat split; simpl; eauto.
    eexists. rewrite Hp, <- app_assoc. reflexivity.
Qed.

Lemma flush_extends s0 s ws d :
  extends s0 s -> flush s ws = Some d -> extends s0 d.
Proof.
  revert s. induction ws as [|w ws IH]; simpl; intros s He Hf.
  - inversion Hf; subst. exact He.
  - destruct (flush_one s w) as [s'|] eqn:E; [|discriminate].
    apply (IH s'); [|exact Hf]. exact (flush_one_extends s0 s w s' He E).
Qed.

Lemma replay_extends_from s0 rs :
  forall s, extends s0 s -> extends s0 (replay rs s).
Proof.
  induction rs as [|[now r] rs IH]; intros s He; [exact He|].
  simpl. apply IH. apply serve_preserves; [|exact He].
  intros a ws d. apply flush_extends.
Qed.

(** Nothing is ever deleted or reordered: after any sequence of requests
    the customer, subscription and payment tables are the old tables
    with rows appended, and the invoice table has the old identifiers in
    the old order with new ones appended. *)
Theorem replay_extends (rs : list (datetime * request)) (s : Store) :
  extends s (replay rs s).
Proof. apply replay_extends_from. apply extends_refl. Qed.

(** ** Payment rows *)

Lemma next_payment_id_above rows p i :
  In p rows -> Payment.id p = Some i -> (i < next_payment_id rows)%Z.
Proof.
  unfold next_payment_id. induction rows as [|q rows IH]; simpl; [intros []|].
  intros [->|Hin] Hi.
  - rewrite Hi. lia.
  - specialize (IH Hin Hi). destruct (Payment.id q); lia.
Qed.

Lemma next_payment_id_pos rows : (0 < next_payment_id rows)%Z.
Proof.
  unfold next_payment_id. induction rows as [|q rows IH]; simpl; [lia|].
  destruct (Payment.id q); lia.
Qed.

Lemma next_payment_id_snoc rows q :
  (next_payment_id rows <= next_payment_id (rows ++ [q]))%Z.
Proof.
  unfold next_payment_id. induction rows as [|p rows IH]; simpl.
  - destruct (Payment.id q); lia.
  - destruct (Payment.id p); lia.
Qed.

Lemma flush_one_payment_ids s w d :
  payment_ids_ok s -> flush_one s w = Some d -> payment_ids_ok d.
Proof.
  intros [Hnd Hall] Hf.
  destruct w as [inv|inv|c|sub|p]; simpl in Hf;
    try (match type of Hf with
         | context [match ?x with _ => _ end] => destruct x; [discriminate|]
         end);
    inversion Hf; subst d; clear Hf; try (split; assumption).
  unfold payment_ids_ok. simpl.
  set (n := next_payment_id (payments s)).
  set (q := Payment.set_id (Some n) p).
  split.
  - rewrite map_app. simpl. apply NoDup_snoc; [exact Hnd|].
    intros Hin. apply in_map_iff in Hin. destruct Hin as (p0 & Hid & Hp0).
    pose proof (next_payment_id_above _ _ _ Hp0 Hid). subst n. lia.
  - intros p0 Hin. apply in_app_or in Hin. destruct Hin as [Hin|[<-|[]]].
    + destruct (Hall p0 Hin) as (i & Hi & Hr). exists i. split; [exact Hi|].
      pose proof (next_payment_id_snoc (payments s) q). lia.
    + exists n. split; [reflexivity|]. split.
      * apply next_payment_id_pos.
      * apply next_payment_id_above with (p := q);
          [apply in_or_app; right; left; reflexivity | reflexivity].
Qed.

Lemma flush_payment_ids s ws d :
  payment_ids_ok s -> flush s ws = Some d -> payment_ids_ok d.
Proof.
  revert s. induction ws as [|w ws IH]; simpl; intros s Hk Hf.
  - inversion Hf; subst. exact Hk.
  - destruct (flush_one s w) as [s'|] eqn:E; [|discriminate].
    apply (IH s'); [|exact Hf]. exact (flush_one_payment_ids s w s' Hk E).
Qed.

(** In every store reached from the empty schema each payment row has an
    identifier of its own: the identifiers are positive and no two
    payment rows share one. *)
Theorem reachable_payment_ids (h : list (datetime * request)) (s : Store) :
  reachable h s -> payment_ids_ok s.
Proof.
  apply reachable_preserves.
  - exact flush_payment_ids.
  - split; [constructor | intros p []].
Qed.

Lemma reachable_payment_ids_witness :
  reachable seed_then_pay (replay seed_then_pay empty_store)
  /\ payment_ids_ok (replay seed_then_pay empty_store).
Proof.
  assert (Hr : reachable seed_then_pay (replay seed_then_pay empty_store)).
  { exact (reach_step _ _ 1%Z (PostPay "INV-10429" "Card")
             (reach_step _ _ 0%Z PostSeed reach_init)). }
  split; [exact Hr|].
  exact (reachable_payment_ids seed_then_pay _ Hr).
Defined.

Lemma serve_payments now r s :
  payments (serve now r s) = payments s
  \/ exists I M inv i,
       find_invoice I (invoices s) = Some inv
       /\ payments (serve now r s)
          = (payments s ++ [Payment.mk (Some i) I (Invoice.amount inv) M now])%list
       /\ find_invoice I (invoices (serve now r s))
          = Some (Invoice.set_method M (Invoice.set_status "paid" inv)).
Proof.
  destruct r as [q|inv0|I M|q|c|q|]; simpl.
  - rewrite list_invoices_run. left. reflexivity.
  - destruct (create_invoice_store inv0 s) as [E|E]; rewrite E; left; reflexivity.
  - destruct (pay_invoice_store now I M s) as [E|(inv1 & Hf1 & E)]; rewrite E;
      [left; reflexivity|].
    right. exists I, M, inv1. eexists. split; [exact Hf1|].
    split; [reflexivity|]. simpl.
    destruct (find_invoice_id _ _ _ Hf1) as [Hid _].
    replace I with
      (Invoice.id (Invoice.set_method M (Invoice.set_status "paid" inv1)))
      at 1 by exact Hid.
    apply find_update_same with (old := inv1). simpl. rewrite Hid. exact Hf1.
  - rewrite list_customers_run. left. reflexivity.
  - destruct (create_customer_store c s) as [E|E]; rewrite E; left; reflexivity.
  - rewrite list_subscriptions_run. left. reflexivity.
  - destruct (seed_store now s) as [E|(_ & _ & Hp)]; [rewrite E|]; left; auto.
Qed.

Lemma serve_payments_backed now r s :
  payments_backed s -> payments_backed (serve now r s).
Proof.
  intros Hb.
  assert (Hold : forall p, In p (payments s) ->
            exists inv,
              find_invoice (Payment.invoice_id p) (invoices (serve now r s))
              = Some inv
              /\ Invoice.status inv = "paid"
              /\ Invoice.amount inv = Payment.amount p).
  { intros p Hin. destruct (Hb p Hin) as (inv & Hf & Hs & Ha).
    destruct (serve_invoice_kept now r s _ inv Hf) as (inv' & Hf' & Hc & Hp).
    exists inv'. split; [exact Hf'|]. split; [auto|].
    destruct Hc as (_ & _ & Hamt & _). congruence. }
  destruct (serve_payments now r s) as [E|(I & M & inv & i & Hf & E & Hf')];
    intros p Hin; rewrite E in Hin.
  - exact (Hold p Hin).
  - apply in_app_or in Hin. destruct Hin as [Hin|[<-|[]]]; [exact (Hold p Hin)|].
    simpl. eexists. split; [exact Hf'|]. split; reflexivity.
Qed.

(** In every store reached from the empty schema each payment row points
    at a stored invoice that reads paid and whose amount is the
    payment's amount. *)
Theorem reachable_payments_backed (h : list (datetime * request)) (s : Store) :
  reachable h s -> payments_backed s.
Proof.
  induction 1 as [|h s now r Hr IH].
  - intros p [].
  - apply serve_payments_backed. exact IH.
Qed.

Lemma reachable_payments_backed_witness :
  reachable seed_then_pay (replay seed_then_pay empty_store)
  /\ payments_backed (replay seed_then_pay empty_store).
Proof.
  assert (Hr : reachable seed_then_pay (replay seed_then_pay empty_store)).
  { exact (reach_step _ _ 1%Z (PostPay "INV-10429" "Card")
             (reach_step _ _ 0%Z PostSeed reach_init)). }
  split; [exact Hr|].
  exact (reachable_payments_backed seed_then_pay _ Hr).
Defined.

(** ** What the planner returns and how it fails *)

Lemma dict_get_set k v d : dict_get k (dict_set k v d) = Some v.
Proof.
  induction d as [|[k' v'] d IH]; simpl.
  - rewrite String.eqb_refl. reflexivity.
  - destruct (k' =? k) eqn:E; simpl; rewrite E; [reflexivity | exact IH].
Qed.

Lemma args_text_stripped args text :
  args_text args = Return text -> Py.strip text = text.
Proof.
  unfold args_text.
  destruct (dict_get "text" args) as [v|]; simpl.
  - destruct (truthy v); [destruct v|]; intros H; inversion H;
      solve [apply strip_idem | reflexivity].
  - intros H. inversion H. reflexivity.
Qed.

(** Whatever object the reply held, a command that the validation
    returns lies inside the schema: its action is in the action set, its
    target is null or in the target set, and with the action [type] the
    target is [field.search] and the text is a trimmed string that is
    not empty. *)
Theorem plan_obj_returns_valid (obj : dict) (c : Command.t) :
  plan_obj obj = Return c -> spec_acceptable c = true.
Proof.
  unfold plan_obj.
  destruct (Command.validate obj) as [cmd|];
    [|intros H; inversion H; reflexivity].
  destruct (str_in (Command.action cmd) ACTIONS) eqn:Ha; simpl;
    [|intros H; inversion H; reflexivity].
  destruct (Command.target cmd) as [tg|] eqn:Etg.
  - destruct (str_in tg TARGETS) eqn:Ht; simpl;
      [|intros H; inversion H; reflexivity].
    destruct (Command.action cmd =? "type") eqn:Ety.
    + destruct (args_text (Command.args cmd)) as [text|e] eqn:Ea;
        [|discriminate].
      destruct (tg =? "field.search") eqn:Efs; simpl;
        [|intros H; inversion H; reflexivity].
      destruct (Py.truthy text) eqn:Etx; simpl; intros H; inversion H;
        [|reflexivity].
      unfold spec_acceptable, spec_text_ok. simpl.
      rewrite Ha, Etg, Ht, Ety, Efs, dict_get_set.
      rewrite (args_text_stripped _ _ Ea), Etx. reflexivity.
    + intros H. inversion H. subst c. unfold spec_acceptable.
      rewrite Ha, Etg, Ht, Ety. reflexivity.
  - destruct (Command.action cmd =? "type") eqn:Ety.
    + destruct (args_text (Command.args cmd)) as [text|e] eqn:Ea;
        [|discriminate].
      simpl. intros H. inversion H. reflexivity.
    + intros H. inversion H. subst c. unfold spec_acceptable.
      rewrite Ha, Etg, Ety. reflexivity.
Qed.

Lemma plan_obj_returns_valid_witness :
  let obj := [("action", JStr "type"); ("target", JStr "field.search");
              ("args", JDict [("text", JStr " apex ")])] in
  let c := Command.mk "type" (Some "field.search") [("text", JStr "apex")] "ok" in
  plan_obj obj = Return c /\ spec_acceptable c = true.
Proof.
  intros obj c. split; [reflexivity|].
  exact (plan_obj_returns_valid obj c eq_refl).
Defined.



Lemma plan_obj_accepted_witness :
  let obj := [("action", JStr "click"); ("target", JStr "nav.invoices")] in
  let cmd := Command.mk "click" (Some "nav.invoices") [] "ok" in
  Command.validate obj = Some cmd
  /\ spec_acceptable cmd = true
  /\ ((Command.action cmd <> "type" /\ plan_obj obj = Return cmd)
      \/ (Command.action cmd = "type"
          /\ exists s, dict_get "text" (Command.args cmd) = Some (JStr s)
                       /\ plan_obj obj
                          = Return (Command.set_args
                                      (dict_set "text" (JStr (Py.strip s))
                                         (Command.args cmd)) cmd))).
Proof.
  intros obj cmd. split; [reflexivity|]. split; [reflexivity|].
  exact (plan_obj_accepted obj cmd eq_refl eq_refl).
Defined.

Section PlannerOutcomes.

Variable OPENROUTER_API_KEY : string.
Variable json_loads : string -> option json.
Variable openrouter : string -> http_response.
Variable whisper : string -> list string.

Lemma plan_reply_returns_valid reply c :
  plan_reply json_loads reply = Return c -> spec_acceptable c = true.
Proof.
  unfold plan_reply.
  destruct (_extract_json json_loads reply) as [[|kv obj]|].
  - intros H. inversion H. reflexivity.
  - apply plan_obj_returns_valid.
  - intros H. inversion H. reflexivity.
Qed.

(** Every command that the planner returns lies inside the schema, and
    it was obtained with exactly one call to the remote model. *)
Theorem plan_command_returns_valid (user_text active_tab : string)
    (log log' : list call) (c : Command.t) :
  plan_command OPENROUTER_API_KEY json_loads openrouter user_text active_tab log
  = (Return c, log') ->
  spec_acceptable c = true
  /\ log' = (log ++ [CallOpenRouter ("Active tab: " ++ active_tab ++ newline
                                     ++ "User: " ++ user_text)])%list.
Proof.
  unfold plan_command, bind, post_openrouter, raise.
  destruct (Py.truthy OPENROUTER_API_KEY); cbv beta iota delta [negb];
    [|discriminate].
  destruct (status_code _ >=? 400)%Z; [discriminate|].
  destruct (content _) as [reply|]; [|discriminate].
  intros H. inversion H as [[Hc Hl]]. split; [|reflexivity].
  exact (plan_reply_returns_valid reply c Hc).
Qed.


End PlannerOutcomes.

Lemma plan_command_returns_valid_witness :
  let c := Command.none
             ("I could not understand. Try: " ++ dq ++ "open invoices" ++ dq
              ++ ", " ++ dq ++ "search apex" ++ dq ++ ".") in
  plan_command "sk-or-test" sample_json_loads (sample_openrouter "{}")
    "hello" "dashboard" []
  = (Return c, [CallOpenRouter ("Active tab: dashboard" ++ newline
                                ++ "User: hello")])
  /\ spec_acceptable c = true.
Proof.
  intros c. split; [reflexivity|].
  exact (proj1 (plan_command_returns_valid "sk-or-test" sample_json_loads
                  (sample_openrouter "{}") "hello" "dashboard" [] _ c eq_refl)).
Defined.


(** ** The brace span of a reply *)

#[local] Arguments open_brace : simpl never.
#[local] Arguments close_brace : simpl never.

Lemma from_first_open_app pre rest :
  has_char open_brace pre = false ->
  from_first_open (pre ++ String open_brace rest) = Some (String open_brace rest).
Proof.
  induction pre as [|c pre IH]; simpl.
  - intros _. rewrite ?Ascii.eqb_refl. reflexivity.
  - intros H. apply orb_false_iff in H. destruct H as [Hc Hp].
    rewrite Hc. exact (IH Hp).
Qed.

Lemma from_first_open_inv s t :
  from_first_open s = Some t ->
  exists pre rest,
    s = pre ++ t /\ t = String open_brace rest /\ has_char open_brace pre = false.
Proof.
  induction s as [|c s IH]; simpl; [discriminate|].
  destruct (Ascii.eqb c open_brace) eqn:E.
  - intros H. inversion H. apply Ascii.eqb_eq in E. subst c.
    exists EmptyString, s. repeat split.
  - intros H. destruct (IH H) as (pre & rest & Hs & Ht & Hp).
    exists (String c pre), rest. simpl. rewrite E, Hp, <- Hs. repeat split.
    exact Ht.
Qed.

Lemma upto_last_close_none post :
  upto_last_close post = None <-> has_char close_brace post = false.
Proof.
  induction post as [|c post IH]; simpl; [tauto|].
  destruct (upto_last_close post) as [r|].
  - split; [discriminate|]. intros H. apply orb_false_iff in H.
    destruct H as [_ H]. apply IH in H. discriminate H.
  - destruct (Ascii.eqb c close_brace); simpl.
    + split; discriminate.
    + split; [intros _; apply IH; reflexivity | reflexivity].
Qed.

Lemma upto_last_close_app mid post :
  has_char close_brace post = false ->
  upto_last_close (mid ++ String close_brace post)
  = Some (mid ++ String close_brace EmptyString).
Proof.
  intros Hp. induction mid as [|c mid IH]; simpl.
  - apply upto_last_close_none in Hp. rewrite Hp, ?Ascii.eqb_refl. reflexivity.
  - rewrite IH. reflexivity.
Qed.

Lemma upto_last_close_inv s r :
  upto_last_close s = Some r ->
  exists mid post,
    s = mid ++ String close_brace post
    /\ r = mid ++ String close_brace EmptyString
    /\ has_char close_brace post = false.
Proof.
  revert r. induction s as [|c s IH]; simpl; [discriminate|]. intros r.
  destruct (upto_last_close s) as [r'|] eqn:E.
  - intros H. inversion H. subst r.
    destruct (IH r' eq_refl) as (mid & post & Hs & Hr & Hp).
    exists (String c mid), post. simpl. rewrite <- Hs, <- Hr. auto.
  - destruct (Ascii.eqb c close_brace) eqn:Ec; [|discriminate].
    intros H. inversion H. apply Ascii.eqb_eq in Ec. subst c.
    exists EmptyString, s. simpl. repeat split.
    apply upto_last_close_none. exact E.
Qed.

(** The pattern search returns the span from the first opening brace of
    the reply to its last closing brace, and finds nothing exactly when
    no closing brace comes after the first opening brace. *)
Theorem brace_span_spec (text span : string) :
  brace_span text = Some span
  <-> exists pre mid post,
        text = pre ++ String open_brace (mid ++ String close_brace post)
        /\ span = String open_brace (mid ++ String close_brace EmptyString)
        /\ has_char open_brace pre = false
        /\ has_char close_brace post = false.
Proof.
  unfold brace_span. split.
  - destruct (from_first_open text) as [t|] eqn:Ef; [|discriminate].
    destruct (from_first_open_inv _ _ Ef) as (pre & rest & Ht & Hr & Hp).
    subst t. destruct (upto_last_close rest) as [r|] eqn:Eu; [|discriminate].
    intros H. inversion H.
    destruct (upto_last_close_inv _ _ Eu) as (mid & post & Hs & Hr' & Hq).
    exists pre, mid, post. subst. auto.
  - intros (pre & mid & post & Ht & Hs & Hp & Hq). subst text span.
    rewrite (from_first_open_app pre _ Hp).
    rewrite (upto_last_close_app mid post Hq). reflexivity.
Qed.

Lemma brace_span_spec_witness :
  brace_span "Sure: {a} or {b}. Bye" = Some "{a} or {b}"
  /\ exists pre mid post,
       "Sure: {a} or {b}. Bye"
       = pre ++ String open_brace (mid ++ String close_brace post)
       /\ "{a} or {b}" = String open_brace (mid ++ String close_brace EmptyString)
       /\ has_char open_brace pre = false
       /\ has_char close_brace post = false.
Proof.
  split; [reflexivity|].
  exact (proj1 (brace_span_spec "Sure: {a} or {b}. Bye" "{a} or {b}") eq_refl).
Defined.

(** Prose around a JSON object is tolerated: when the reply as a whole
    does not parse to an object, but the text from its first opening
    brace to its last closing brace does, that object is extracted. *)
Theorem extract_json_embedded (json_loads : string -> option json)
    (pre mid post : string) (d : dict) :
  let text := pre ++ String open_brace (mid ++ String close_brace post) in
  let span := String open_brace (mid ++ String close_brace EmptyString) in
  has_char open_brace pre = false ->
  has_char close_brace post = false ->
  (forall d', json_loads text <> Some (JDict d')) ->
  json_loads span = Some (JDict d) ->
  _extract_json json_loads text = Some d.
Proof.
  intros text span Hp Hq Hwhole Hspan.
  assert (Hb : brace_span text = Some span).
  { unfold brace_span, text.
    rewrite (from_first_open_app pre _ Hp).
    rewrite (upto_last_close_app mid post Hq). reflexivity. }
  unfold _extract_json. rewrite Hb, Hspan.
  destruct (json_loads text) as [v|] eqn:E; [|reflexivity].
  destruct v; try reflexivity. exfalso. exact (Hwhole _ eq_refl).
Qed.

Lemma extract_json_embedded_witness :
  has_char open_brace "Sure: " = false
  /\ has_char close_brace " done" = false
  /\ (forall d', sample_json_loads "Sure: {} done" <> Some (JDict d'))
  /\ sample_json_loads "{}" = Some (JDict [])
  /\ _extract_json sample_json_loads "Sure: {} done" = Some [].
Proof.
  assert (Hw : forall d', sample_json_loads "Sure: {} done" <> Some (JDict d'))
    by (intros d'; discriminate).
  split; [reflexivity|]. split; [reflexivity|]. split; [exact Hw|].
  split; [reflexivity|].
  exact (extract_json_embedded sample_json_loads "Sure: " EmptyString " done" []
           eq_refl eq_refl Hw eq_refl).
Defined.

(** ** Transcription and the voice route *)

Lemma strip_head x :
  match Py.strip x with
  | EmptyString => True
  | String c _ => Py.isspace c = false
  end.
Proof.
  unfold Py.strip. pose proof (lstrip_head x) as H.
  destruct (Py.lstrip x) as [|c s]; simpl; [exact I|].
  destruct (Py.rstrip s); [rewrite H; simpl; exact H | exact H].
Qed.

Lemma strip_keeps_head c s :
  Py.isspace c = false -> Py.strip (String c s) <> EmptyString.
Proof.
  intros Hc. unfold Py.strip. simpl. rewrite Hc.
  apply rstrip_nonempty. exact Hc.
Qed.

Lemma join_head sep c p ps :
  exists rest, Py.join sep (String c p :: ps) = String c rest.
Proof. destruct ps; simpl; eauto. Qed.

Lemma filter_truthy_nil (l : list string) :
  (forall x, In x l -> x = EmptyString) -> filter Py.truthy l = [].
Proof.
  induction l as [|x l IH]; simpl; intros H; [reflexivity|].
  rewrite (H x (or_introl eq_refl)). simpl. apply IH. auto.
Qed.

Section VoiceProperties.

Variable OPENROUTER_API_KEY : string.
Variable json_loads : string -> option json.
Variable openrouter : string -> http_response.
Variable whisper : string -> list string.

(** Transcription calls the speech model once and returns a string with
    no whitespace at either end; that string is empty exactly when every
    segment is empty or whitespace only. *)
Theorem transcribe_audio_trimmed (audio : string) (log : list call) :
  exists t,
    transcribe_audio whisper audio log
    = (Return t, (log ++ [CallWhisper audio])%list)
    /\ Py.strip t = t
    /\ (t = EmptyString
        <-> forall seg, In seg (whisper audio) -> Py.strip seg = EmptyString).
Proof.
  eexists. split; [reflexivity|]. split; [apply strip_idem|].
  set (parts := filter Py.truthy (map Py.strip (filter Py.truthy (whisper audio)))).
  split.
  - intros Ht seg Hin.
    destruct (string_dec (Py.strip seg) EmptyString) as [E|E]; [exact E|].
    exfalso.
    assert (Hp : In (Py.strip seg) parts).
    { unfold parts. apply filter_In. split.
      - apply in_map. apply filter_In. split; [exact Hin|].
        destruct seg; [exfalso; apply E; reflexivity | reflexivity].
      - destruct (Py.strip seg); [exfalso; apply E; reflexivity | reflexivity]. }
    destruct parts as [|p ps] eqn:Eparts; [exact Hp|].
    assert (Hfirst : In p parts) by (rewrite Eparts; left; reflexivity).
    unfold parts in Hfirst. apply filter_In in Hfirst.
    destruct Hfirst as [Hmap Htr].
    apply in_map_iff in Hmap. destruct Hmap as (x & Hx & _).
    pose proof (strip_head x) as Hh. rewrite Hx in Hh.
    destruct p as [|c p']; [discriminate Htr|].
    destruct (join_head " " c p' ps) as [rest Hj].
    rewrite Hj in Ht. exact (strip_keeps_head c rest Hh Ht).
  - intros Hall.
    assert (Hnil : parts = []).
    { unfold parts. apply filter_truthy_nil. intros x Hx.
      apply in_map_iff in Hx. destruct Hx as (seg & Hs & Hin).
      apply filter_In in Hin. destruct Hin as [Hin _].
      rewrite <- Hs. exact (Hall seg Hin). }
    rewrite Hnil. reflexivity.
Qed.

(** With something heard, the voice route is the text route applied to
    the transcript, after the one call to the speech model: the same
    response, the same failure, the same remote call. *)
Theorem assistant_voice_as_text (audio active_tab t : string) (log : list call) :
  fst (transcribe_audio whisper audio log) = Return t ->
  t <> EmptyString ->
  assistant_voice OPENROUTER_API_KEY json_loads openrouter whisper
    audio active_tab log
  = assistant_text OPENROUTER_API_KEY json_loads openrouter
      t active_tab (log ++ [CallWhisper audio])%list.
Proof.
  intros H Hne.
  unfold transcribe_audio, bind, call_whisper, ret in H. simpl in H.
  injection H as Ht.
  unfold assistant_voice, assistant_text, transcribe_audio, bind, call_whisper,
    ret.
  cbv beta iota. rewrite Ht.
  destruct t as [|c t']; [exfalso; apply Hne; reflexivity|].
  reflexivity.
Qed.

End VoiceProperties.

Lemma assistant_voice_as_text_witness :
  let whisper := fun _ : string => [" open invoices "; EmptyString] in
  fst (transcribe_audio whisper "RIFF" []) = Return "open invoices"
  /\ "open invoices" <> EmptyString
  /\ assistant_voice "sk-or-test" sample_json_loads (sample_openrouter "{}")
       whisper "RIFF" "dashboard" []
     = assistant_text "sk-or-test" sample_json_loads (sample_openrouter "{}")
         "open invoices" "dashboard" [CallWhisper "RIFF"].
Proof.
  intros whisper.
  assert (Hne : "open invoices" <> EmptyString) by discriminate.
  split; [reflexivity|]. split; [exact Hne|].
  exact (assistant_voice_as_text "sk-or-test" sample_json_loads
           (sample_openrouter "{}") whisper "RIFF" "dashboard" "open invoices"
           [] eq_refl Hne).
Defined.

(** ** Allowed origins *)

Lemma split_on_no_sep sep s x :
  In x (split_on sep s) -> has_char sep x = false.
Proof.
  revert x. induction s as [|c s IH]; simpl; intros x.
  - intros [<-|[]]. reflexivity.
  - destruct (Ascii.eqb c sep) eqn:E.
    + intros [<-|Hin]; [reflexivity | exact (IH x Hin)].
    + destruct (split_on sep s) as [|p ps].
      * intros [<-|[]]. simpl. rewrite E. reflexivity.
      * intros [<-|Hin].
        -- simpl. rewrite E. apply IH. left. reflexivity.
        -- apply IH. right. exact Hin.
Qed.

Lemma has_char_lstrip c s :
  has_char c s = false -> has_char c (Py.lstrip s) = false.
Proof.
  induction s as [|a s IH]; simpl; [auto|].
  intros H. destruct (Py.isspace a); [|exact H].
  apply orb_false_iff in H. apply IH. tauto.
Qed.

Lemma has_char_rstrip c s :
  has_char c s = false -> has_char c (Py.rstrip s) = false.
Proof.
  induction s as [|a s IH]; simpl; [auto|].
  intros H. apply orb_false_iff in H. destruct H as [Ha Hs].
  specialize (IH Hs).
  destruct (Py.rstrip s) as [|b r].
  - destruct (Py.isspace a); simpl; rewrite ?Ha; reflexivity.
  - simpl in *. rewrite Ha. exact IH.
Qed.

(** Whatever the environment variable holds, every allowed origin read
    from it is a string that is not empty, has no whitespace at either
    end and contains no comma. *)
Theorem cors_origins_clean (env : option string) (o : string) :
  In o (CORS_ORIGINS env) ->
  o <> EmptyString /\ Py.strip o = o /\ has_char comma o = false.
Proof.
  unfold CORS_ORIGINS. intros Hin.
  apply in_map_iff in Hin. destruct Hin as (x & Hx & Hin).
  apply filter_In in Hin. destruct Hin as [Hsplit Htr].
  subst o. split; [|split].
  - destruct (Py.strip x); [discriminate Htr | discriminate].
  - apply strip_idem.
  - unfold Py.strip. apply has_char_rstrip, has_char_lstrip.
    exact (split_on_no_sep _ _ _ Hsplit).
Qed.

Lemma cors_origins_clean_witness :
  CORS_ORIGINS (Some " https://app.example ,, http://localhost:5173,")
  = ["https://app.example"; "http://localhost:5173"]
  /\ "https://app.example" <> EmptyString
  /\ Py.strip "https://app.example" = "https://app.example"
  /\ has_char comma "https://app.example" = false.
Proof.
  split; [reflexivity|].
  exact (cors_origins_clean
           (Some " https://app.example ,, http://localhost:5173,")
           "https://app.example" (or_introl eq_refl)).
Defined.

(** ** Examples for the seed and key lemmas *)

Lemma seed_with_invoices_witness :
  invoices (mkStore [apex_invoice] [] [] []) <> []
  /\ run (seed_if_empty 4) (mkStore [apex_invoice] [] [] [])
     = (Return (mk_seed_response true false), mkStore [apex_invoice] [] [] []).
Proof.
  assert (H : invoices (mkStore [apex_invoice] [] [] []) <> []) by discriminate.
  split; [exact H|].
  exact (proj1 (seed_with_invoices 4%Z (mkStore [apex_invoice] [] [] []) H)).
Defined.

Lemma seed_twice_witness :
  fst (run (seed_if_empty 1) empty_store) = Return (mk_seed_response true true)
  /\ run (seed_if_empty 2) (snd (run (seed_if_empty 1) empty_store))
     = (Return (mk_seed_response true false),
        snd (run (seed_if_empty 1) empty_store)).
Proof.
  split; [reflexivity|].
  exact (seed_twice 1%Z 2%Z empty_store (mk_seed_response true true) eq_refl).
Defined.

Lemma reachable_keys_unique_witness :
  reachable seed_then_pay (replay seed_then_pay empty_store)
  /\ keys_unique (replay seed_then_pay empty_store).
Proof.
  assert (Hr : reachable seed_then_pay (replay seed_then_pay empty_store)).
  { exact (reach_step _ _ 1%Z (PostPay "INV-10429" "Card")
             (reach_step _ _ 0%Z PostSeed reach_init)). }
  split; [exact Hr|].
  exact (reachable_keys_unique seed_then_pay _ Hr).
Defined.

Lemma transcribe_audio_trimmed_witness :
  let whisper := fun _ : string => [" open "; "  "; "invoices "] in
  exists t,
    transcribe_audio whisper "RIFF" [] = (Return t, [CallWhisper "RIFF"])
    /\ Py.strip t = t
    /\ (t = EmptyString
        <-> forall seg, In seg (whisper "RIFF") -> Py.strip seg = EmptyString).
Proof.
  intros whisper.
  exact (transcribe_audio_trimmed whisper "RIFF" []).
Defined.

(** With any invoice stored the seed route is a no-op: it reports that
    it did not seed, commits nothing and leaves the store as it was,
    whatever the other tables hold. *)
Theorem seed_skips_when_invoices (now : datetime) (s : Store) (r : Invoice.t) :
  In r (invoices s) ->
  run (seed_if_empty now) s = (Return (mk_seed_response true false), s)
  /\ transactions (seed_if_empty now) s = [].
Proof.
  intros Hin. apply seed_with_invoices.
  intros E. rewrite E in Hin. exact Hin.
Qed.

Lemma seed_skips_when_invoices_witness :
  In apex_invoice (invoices (mkStore [apex_invoice] [apex_customer] [] []))
  /\ run (seed_if_empty 4) (mkStore [apex_invoice] [apex_customer] [] [])
     = (Return (mk_seed_response true false),
        mkStore [apex_invoice] [apex_customer] [] []).
Proof.
  split; [left; reflexivity|].
  exact (proj1 (seed_skips_when_invoices 4%Z
                  (mkStore [apex_invoice] [apex_customer] [] [])
                  apex_invoice (or_introl eq_refl))).
Defined.
